(** * Landslide susceptibility overlay: the Earth Engine script, embedded

    The script [google earth engine script.js] is one function, [run(aoi)],
    that chains raster operators of the hosted platform.  The embedding has
    two layers:

    - [Module EE]: the platform operators the script calls ([where], [eq],
      [lte], [gt], [and], [multiply], [add], [divide], [unmask], [toByte],
      [paint], [fastDistanceTransform], [reduceRegion] with the percentile
      reducer), modelled from the platform's reference documentation, per
      pixel and lifted to images, masks included;
    - [Module Script]: the script's own definitions, under their source
      names, written as the same operator chains.

    An image is a function from grid cells to pixels; a masked (nodata)
    pixel is [None].  The images are read over the footprint of the clipped
    layers, the buffered area of interest.

    Numbers.  [Module Script] writes the arithmetic of the overlay over the
    exact rationals ([Q]); the script computes it in IEEE 754 binary64, and
    [Module Binary64] writes steps 6 and the class chain in that type, with
    the operations in the order of the script.  The statements on the
    exact definitions are those rounding does not change (which test fires
    on a breakpoint given exactly, masks, order and dependence on the
    layers) or say that they are about the exact value of the formula; what
    the script computes near a breakpoint or a bound is stated on
    [Binary64].

    The layers the script obtains from platform calls alone (terrain slope,
    neighbourhood roughness, the land-cover map, the water occurrence, the
    road features) are inputs of the embedding, gathered in [Sources]. *)

From Stdlib Require Import ZArith QArith Qround List Bool Lia Lqa.
From Stdlib Require Import PrimFloat.
From Stdlib Require Import Floats.
From Stdlib Require Import Permutation.
Import ListNotations.
Open Scope Q_scope.

(** Left-to-right application, so that an operator chain reads as in the
    script: [img |> f |> g] is [g (f img)]. *)
Notation "x |> f" := (f x) (at level 45, left associativity, only parsing).

(* ================================================================= *)
(** ** The platform operators *)
(* ================================================================= *)

Module EE.

(** A grid cell, a pixel (masked or holding a number) and an image. *)
Definition cell : Type := (Z * Z)%type.
Definition pixel : Type := option Q.
Definition Image : Type := cell -> pixel.

Definition bit (b : bool) : Q := if b then 1 else 0.
Definition nonzero (q : Q) : bool := negb (Qeq_bool q 0).

(** *** Per-pixel semantics *)

(** Unary and binary operators give a masked result wherever an operand is
    masked. *)
Definition px_map (f : Q -> Q) (a : pixel) : pixel :=
  match a with
  | Some x => Some (f x)
  | None => None
  end.

Definition px_map2 (f : Q -> Q -> Q) (a b : pixel) : pixel :=
  match a, b with
  | Some x, Some y => Some (f x y)
  | _, _ => None
  end.

(** [input.where(test, value)] with a constant [value]: where [input] is
    masked nothing is done; where [test] is masked the input value is used;
    otherwise a non-zero [test] selects [value]. *)
Definition px_where (test : pixel) (value : Q) (input : pixel) : pixel :=
  match input with
  | None => None
  | Some i =>
      match test with
      | None => Some i
      | Some t => if nonzero t then Some value else Some i
      end
  end.

(** [divide] returns 0 for a division by 0. *)
Definition q_divide (a b : Q) : Q :=
  if Qeq_bool b 0 then 0 else a / b.

(** Cast to an unsigned 8-bit integer: the integer part, kept within
    0..255.  The script casts the values 0 and 1 only. *)
Definition q_toByte (a : Q) : Q :=
  inject_Z (Z.max 0 (Z.min 255 (Qfloor a))).

(** *** Images *)

(** [ee.Image(k)]: the constant image, unmasked everywhere. *)
Definition constant (k : Q) : Image := fun _ => Some k.

Definition eq_ (k : Q) (a : Image) : Image :=
  fun c => px_map (fun x => bit (Qeq_bool x k)) (a c).
Definition lte (k : Q) (a : Image) : Image :=
  fun c => px_map (fun x => bit (Qle_bool x k)) (a c).
Definition gt (k : Q) (a : Image) : Image :=
  fun c => px_map (fun x => bit (negb (Qle_bool x k))) (a c).
Definition and_ (b a : Image) : Image :=
  fun c => px_map2 (fun x y => bit (nonzero x && nonzero y)) (a c) (b c).

Definition where_ (test : Image) (value : Q) (input : Image) : Image :=
  fun c => px_where (test c) value (input c).

(** Multiplication and division by a number, addition of two images. *)
Definition multiply (k : Q) (a : Image) : Image :=
  fun c => px_map (fun x => x * k) (a c).
Definition divide (k : Q) (a : Image) : Image :=
  fun c => px_map (fun x => q_divide x k) (a c).
Definition add (b a : Image) : Image :=
  fun c => px_map2 Qplus (a c) (b c).

(** [unmask(k)]: masked pixels become [k].  The platform fills within the
    footprint of its input, which for the clipped layers of the script is
    the buffered area of interest: the cells of this development are the
    cells of that footprint. *)
Definition unmask (k : Q) (a : Image) : Image :=
  fun c => match a c with
           | Some x => Some x
           | None => Some k
           end.

Definition toByte (a : Image) : Image :=
  fun c => px_map q_toByte (a c).

(** [img.paint(features, color)]: the cells the features cover take
    [color]; [features] is the set of cells a feature intersects. *)
Definition paint (features : cell -> bool) (color : Q) (a : Image) : Image :=
  fun c => if features c then px_map (fun _ => color) (a c) else a c.

(** A chain [init.where(t1, v1).where(t2, v2)...] as the list of its
    rules, applied first to last. *)
Definition rule : Type := (Image * Q)%type.

Definition where_chain (init : Image) (rules : list rule) : Image :=
  fold_left (fun img r => img |> where_ (fst r) (snd r)) rules init.

(** Whether a rule's test selects the cell, and how many rules do. *)
Definition selects (c : cell) (r : rule) : bool :=
  match fst r c with
  | Some t => nonzero t
  | None => false
  end.

Definition fired (rules : list rule) (c : cell) : nat :=
  length (filter (selects c) rules).

(** *** Distance transform *)

(** A feature cell of a distance transform: an unmasked, non-zero pixel. *)
Definition present (a : Image) (c : cell) : bool :=
  match a c with
  | Some x => nonzero x
  | None => false
  end.

(** The offsets of the square window of radius [n] around a cell. *)
Definition span (n : Z) : list Z :=
  map (fun k => (Z.of_nat k - n)%Z) (seq 0 (Z.to_nat (2 * n + 1))).

Definition offsets (n : Z) : list (Z * Z) := list_prod (span n) (span n).

Definition shift (c : cell) (d : Z * Z) : cell :=
  (fst c + fst d, snd c + snd d)%Z.

Definition sq_euclidean (d : Z * Z) : Z :=
  (fst d * fst d + snd d * snd d)%Z.

(** One step of the scan of the window: keep the smaller squared
    distance. *)
Definition closer (a : Image) (c : cell) (best : option Z) (d : Z * Z)
  : option Z :=
  if present a (shift c d) then
    match best with
    | None => Some (sq_euclidean d)
    | Some m => Some (Z.min m (sq_euclidean d))
    end
  else best.

Definition nearest_sq (n : Z) (a : Image) (c : cell) : option Z :=
  fold_left (closer a c) (offsets n) None.

(** [fastDistanceTransform(neighborhood)] with its default metric, the
    SQUARED Euclidean distance, in pixels, to the nearest non-zero pixel
    of the input found within the neighbourhood.  The documentation does
    not say what a cell with no feature in its neighbourhood receives:
    that pixel is the parameter [beyond]. *)
Definition fastDistanceTransform (beyond : pixel) (neighborhood : Z)
  (a : Image) : Image :=
  fun c => match nearest_sq neighborhood a c with
           | Some m => Some (inject_Z m)
           | None => beyond
           end.

(** *** Region reduction with the percentile reducer *)

(** The unmasked values of an image over the cells of a region. *)
Definition values (a : Image) (geometry : list cell) : list Q :=
  flat_map (fun c => match a c with
                     | Some x => [x]
                     | None => []
                     end) geometry.

Fixpoint insert_sorted (x : Q) (l : list Q) : list Q :=
  match l with
  | [] => [x]
  | y :: l' => if Qle_bool x y then x :: l else y :: insert_sorted x l'
  end.

Definition sort (l : list Q) : list Q := fold_right insert_sorted [] l.

(** The p-th percentile computed directly on the sorted data (nearest
    rank), as the platform documents for small inputs; no value on an
    empty input.  On large inputs the platform derives the percentiles
    from a histogram, which is not modelled: no statement of this
    development says which value a percentile is. *)
Definition rank (p : Z) (n : nat) : nat :=
  Z.to_nat ((p * Z.of_nat n + 99) / 100) - 1.

Definition percentile_of (l : list Q) (p : Z) : option Q :=
  match sort l with
  | [] => None
  | (x :: _) as sorted => Some (nth (rank p (length sorted)) sorted x)
  end.

Definition percentile (ps : list Z) (l : list Q) : list (Z * option Q) :=
  map (fun p => (p, percentile_of l p)) ps.

(** [reduceRegion] fails when the region holds more than [maxPixels]
    pixels, and otherwise applies the reducer to the unmasked values. *)
Inductive result (A : Type) : Type :=
| Ok (a : A)
| TooManyPixels.
Arguments Ok {A} a.
Arguments TooManyPixels {A}.

Definition reduceRegion {A : Type} (reducer : list Q -> A)
  (geometry : list cell) (maxPixels : Z) (a : Image) : result A :=
  if (maxPixels <? Z.of_nat (length geometry))%Z then TooManyPixels
  else Ok (reducer (values a geometry)).

End EE.

(* ================================================================= *)
(** ** Five-band rule tables *)
(* ================================================================= *)

(** The reclassification chains of the script and its class chain have one
    shape: four breakpoints, five values, the tests [x <= a],
    [a < x <= b], [b < x <= c], [c < x <= d], [d < x]. *)
Definition bandRules (a b c d v1 v2 v3 v4 v5 : Q) (img : EE.Image)
  : list EE.rule :=
  [ (img |> EE.lte a, v1);
    (img |> EE.gt a |> EE.and_ (img |> EE.lte b), v2);
    (img |> EE.gt b |> EE.and_ (img |> EE.lte c), v3);
    (img |> EE.gt c |> EE.and_ (img |> EE.lte d), v4);
    (img |> EE.gt d, v5) ].

(** The same table as an explicit interval lookup. *)
Definition band (a b c d v1 v2 v3 v4 v5 : Q) (x : Q) : Q :=
  if Qle_bool x a then v1
  else if Qle_bool x b then v2
  else if Qle_bool x c then v3
  else if Qle_bool x d then v4
  else v5.

(* ================================================================= *)
(** ** The script *)
(* ================================================================= *)

(** The weight vector: [weights.slope], [weights.roughness], ... *)
Module W.
Record t : Type := mk {
  slope : Q;
  roughness : Q;
  landcover : Q;
  distWater : Q;
  distRoad : Q
}.
Definition sum (w : t) : Q :=
  slope w + roughness w + landcover w + distWater w + distRoad w.
End W.

Module Script.
Import EE.

(** USER SETTINGS: the weights the script ships with. *)
Definition weights : W.t :=
  {| W.slope := 0.45;
     W.roughness := 0.15;
     W.landcover := 0.20;
     W.distWater := 0.10;
     W.distRoad := 0.10 |}.

(** The layers [run] loads or derives with platform calls only: slope and
    roughness of the clipped elevation model, the land-cover map, the
    surface-water occurrence, and the cells the road features cover.  They
    are read over the footprint of the clipped images, the buffered area of
    interest; a cell of it that a dataset does not cover is masked. *)
Record Sources : Type := {
  src_slope : Image;
  src_roughness : Image;
  src_worldCover : Image;
  src_gsw : Image;
  src_roads : cell -> bool
}.

(** *** 2) Land cover *)

Definition lcRules (worldCover : Image) : list rule :=
  [ (worldCover |> eq_ 10, 1);   (* Tree cover *)
    (worldCover |> eq_ 20, 3);   (* Shrubland *)
    (worldCover |> eq_ 30, 3);   (* Grassland *)
    (worldCover |> eq_ 40, 3);   (* Cropland *)
    (worldCover |> eq_ 50, 4);   (* Built-up *)
    (worldCover |> eq_ 60, 5);   (* Bare / sparse veg *)
    (worldCover |> eq_ 70, 1);   (* Snow & ice *)
    (worldCover |> eq_ 80, 1);   (* Water *)
    (worldCover |> eq_ 90, 2);   (* Herbaceous wetland *)
    (worldCover |> eq_ 100, 2) ] (* Mangroves, says the script *).

Definition lcScore (worldCover : Image) : Image :=
  where_chain (constant 0) (lcRules worldCover).

(** *** 3) Distance to water, 4) distance to roads *)

Definition waterMask (gsw : Image) : Image := gsw |> gt 10.

Definition waterBinary (gsw : Image) : Image :=
  waterMask gsw |> unmask 0 |> toByte.

Definition dtWater (beyond : pixel) (gsw : Image) : Image :=
  waterBinary gsw |> fastDistanceTransform beyond 30 |> multiply 30.

Definition roadsRaster (roads : cell -> bool) : Image :=
  constant 0 |> toByte |> paint roads 1.

Definition dtRoad (beyond : pixel) (roads : cell -> bool) : Image :=
  roadsRaster roads |> fastDistanceTransform beyond 30 |> multiply 30.

(** *** 5) Reclassification of the continuous predictors *)

Definition slopeRules (slope : Image) : list rule :=
  [ (slope |> lte 5, 1);
    (slope |> gt 5 |> and_ (slope |> lte 15), 2);
    (slope |> gt 15 |> and_ (slope |> lte 25), 3);
    (slope |> gt 25 |> and_ (slope |> lte 35), 4);
    (slope |> gt 35, 5) ].

Definition slopeScore (slope : Image) : Image :=
  where_chain (constant 0) (slopeRules slope).

Definition roughRules (roughness : Image) : list rule :=
  [ (roughness |> lte 1, 1);
    (roughness |> gt 1 |> and_ (roughness |> lte 3), 2);
    (roughness |> gt 3 |> and_ (roughness |> lte 6), 3);
    (roughness |> gt 6 |> and_ (roughness |> lte 12), 4);
    (roughness |> gt 12, 5) ].

Definition roughScore (roughness : Image) : Image :=
  where_chain (constant 0) (roughRules roughness).

Definition distWaterRules (dtWater : Image) : list rule :=
  [ (dtWater |> lte 50, 5);
    (dtWater |> gt 50 |> and_ (dtWater |> lte 100), 4);
    (dtWater |> gt 100 |> and_ (dtWater |> lte 250), 3);
    (dtWater |> gt 250 |> and_ (dtWater |> lte 500), 2);
    (dtWater |> gt 500, 1) ].

Definition distWaterScore (dtWater : Image) : Image :=
  where_chain (constant 0) (distWaterRules dtWater).

Definition distRoadRules (dtRoad : Image) : list rule :=
  [ (dtRoad |> lte 50, 5);
    (dtRoad |> gt 50 |> and_ (dtRoad |> lte 100), 4);
    (dtRoad |> gt 100 |> and_ (dtRoad |> lte 250), 3);
    (dtRoad |> gt 250 |> and_ (dtRoad |> lte 500), 2);
    (dtRoad |> gt 500, 1) ].

Definition distRoadScore (dtRoad : Image) : Image :=
  where_chain (constant 0) (distRoadRules dtRoad).

(** *** 6) Weighted overlay *)

(** The weighted sum and its normalisation over the exact rationals: the
    value of the formula.  The script evaluates it in binary64, which
    [Binary64.weighted64] and [Binary64.susceptibility64] follow. *)

Definition weighted (w : W.t)
  (slopeScore roughScore lcScore distWaterScore distRoadScore : Image)
  : Image :=
  slopeScore |> multiply (W.slope w)
    |> add (roughScore |> multiply (W.roughness w))
    |> add (lcScore |> multiply (W.landcover w))
    |> add (distWaterScore |> multiply (W.distWater w))
    |> add (distRoadScore |> multiply (W.distRoad w)).

Definition maxPossible (w : W.t) : Q :=
  5 * (W.slope w + W.roughness w + W.landcover w + W.distWater w
       + W.distRoad w).

Definition susceptibility (w : W.t) (weighted : Image) : Image :=
  weighted |> divide (maxPossible w).

Definition susRules (susceptibility : Image) : list rule :=
  [ (susceptibility |> lte 0.2, 1);
    (susceptibility |> gt 0.2 |> and_ (susceptibility |> lte 0.4), 2);
    (susceptibility |> gt 0.4 |> and_ (susceptibility |> lte 0.6), 3);
    (susceptibility |> gt 0.6 |> and_ (susceptibility |> lte 0.8), 4);
    (susceptibility |> gt 0.8, 5) ].

Definition susClass (susceptibility : Image) : Image :=
  where_chain (constant 0) (susRules susceptibility).

(** *** Quick stats *)

Definition stats (susceptibility : Image) (aoi : list cell)
  : result (list (Z * option Q)) :=
  susceptibility
    |> reduceRegion (percentile [10; 25; 50; 75; 90]%Z) aoi (10 ^ 13)%Z.

(** *** MAIN *)

(** Steps 5 and 6 on the five predictor layers. *)
Definition overlay (w : W.t)
  (slope roughness worldCover dtWater dtRoad : Image) : Image :=
  susceptibility w
    (weighted w (slopeScore slope) (roughScore roughness)
       (lcScore worldCover) (distWaterScore dtWater)
       (distRoadScore dtRoad)).

(** What [run] shows and prints. *)
Record Outputs : Type := {
  out_susceptibility : Image;
  out_susClass : Image;
  out_stats : result (list (Z * option Q))
}.

(** A call of [run] either completes or is refused; the script has no
    statement that refuses. *)
Inductive outcome : Type :=
| Completed (o : Outputs)
| Rejected.

(** The susceptibility layer [run] builds from its sources. *)
Definition pipeline (beyond : pixel) (w : W.t) (src : Sources) : Image :=
  overlay w (src_slope src) (src_roughness src) (src_worldCover src)
    (dtWater beyond (src_gsw src)) (dtRoad beyond (src_roads src)).

Definition run (beyond : pixel) (w : W.t) (src : Sources)
  (aoi : list cell) : outcome :=
  let sus := pipeline beyond w src in
  Completed {| out_susceptibility := sus;
               out_susClass := susClass sus;
               out_stats := stats sus aoi |}.

End Script.

(* ================================================================= *)
(** ** The overlay arithmetic in binary64 *)
(* ================================================================= *)

(** The script's numbers are IEEE 754 binary64 values.  This module writes
    steps 6 and the class chain for one pixel in that arithmetic, with the
    operations in the order of the script, to evaluate the scenarios whose
    outcome sits on a breakpoint. *)
Module Binary64.

#[local] Set Warnings "-inexact-float".
#[local] Open Scope float_scope.

Record weights64_t : Type := {
  slope64 : float;
  roughness64 : float;
  landcover64 : float;
  distWater64 : float;
  distRoad64 : float
}.

Definition weights64 : weights64_t :=
  {| slope64 := 0.45;
     roughness64 := 0.15;
     landcover64 := 0.20;
     distWater64 := 0.10;
     distRoad64 := 0.10 |}.

Definition weighted64 (w : weights64_t)
  (slopeScore roughScore lcScore distWaterScore distRoadScore : float)
  : float :=
  slopeScore * slope64 w + roughScore * roughness64 w + lcScore * landcover64 w
  + distWaterScore * distWater64 w + distRoadScore * distRoad64 w.

Definition maxPossible64 (w : weights64_t) : float :=
  5 * (slope64 w + roughness64 w + landcover64 w + distWater64 w + distRoad64 w).

Definition divide64 (k x : float) : float :=
  if k =? 0 then 0 else x / k.

Definition susceptibility64 (w : weights64_t) (weighted : float) : float :=
  weighted |> divide64 (maxPossible64 w).

Definition where64 (test : bool) (value input : float) : float :=
  if test then value else input.

Definition susClass64 (susceptibility : float) : float :=
  0 |> where64 (susceptibility <=? 0.2) 1
    |> where64 ((0.2 <? susceptibility) && (susceptibility <=? 0.4)) 2
    |> where64 ((0.4 <? susceptibility) && (susceptibility <=? 0.6)) 3
    |> where64 ((0.6 <? susceptibility) && (susceptibility <=? 0.8)) 4
    |> where64 (0.8 <? susceptibility) 5.

(** Step 6 on the five scores of a pixel. *)
Definition overlay64 (w : weights64_t)
  (slopeScore roughScore lcScore distWaterScore distRoadScore : float)
  : float :=
  susceptibility64 w
    (weighted64 w slopeScore roughScore lcScore distWaterScore
       distRoadScore).

(** The five tests of the class chain, in the order of the script, and
    how many of them hold. *)
Definition susTests64 (susceptibility : float) : list bool :=
  [ susceptibility <=? 0.2;
    (0.2 <? susceptibility) && (susceptibility <=? 0.4);
    (0.4 <? susceptibility) && (susceptibility <=? 0.6);
    (0.6 <? susceptibility) && (susceptibility <=? 0.8);
    0.8 <? susceptibility ].

Definition fired64 (susceptibility : float) : nat :=
  length (filter (fun b : bool => b) (susTests64 susceptibility)).

(** The values of a score: the five ordinal scores, and with them the 0 a
    chain keeps for a masked predictor or an untested class code. *)
Definition ordinal64 : list float := [1; 2; 3; 4; 5].
Definition scores64 : list float := [0; 1; 2; 3; 4; 5].

(** A test on five scores holds for every choice of them in [l]. *)
Definition for_scores (l : list float)
  (P : float -> float -> float -> float -> float -> bool) : bool :=
  forallb (fun a => forallb (fun b => forallb (fun c => forallb (fun d =>
    forallb (fun e => P a b c d e) l) l) l) l) l.



Definition road_heavy64 : weights64_t :=
  {| slope64 := 0.05; roughness64 := 0.05; landcover64 := 0.05;
     distWater64 := 0.05; distRoad64 := 0.15 |}.

Definition negative_weights64 : weights64_t :=
  {| slope64 := - 0.45; roughness64 := 0.15; landcover64 := 0.20;
     distWater64 := 0.10; distRoad64 := 0.10 |}.

Definition huge_weights64 : weights64_t :=
  {| slope64 := 1e308; roughness64 := 1e308; landcover64 := 1e308;
     distWater64 := 1e308; distRoad64 := 1e308 |}.

(** Whether every weight is at least 0, and the sum as the script adds
    it. *)
Definition nonneg64 (w : weights64_t) : bool :=
  (0 <=? slope64 w) && (0 <=? roughness64 w) && (0 <=? landcover64 w)
  && (0 <=? distWater64 w) && (0 <=? distRoad64 w).

Definition sum64 (w : weights64_t) : float :=
  slope64 w + roughness64 w + landcover64 w + distWater64 w + distRoad64 w.

End Binary64.

Import EE Script.

(* ================================================================= *)
(** ** Vocabulary of the statements *)
(* ================================================================= *)

(** A pixel that holds one of the five ordinal scores. *)
Definition ordinal (p : pixel) : Prop :=
  p = Some 1 \/ p = Some 2 \/ p = Some 3 \/ p = Some 4 \/ p = Some 5.

(** A score [s] agrees with a five-band table at the value [x]; every
    breakpoint belongs to the band below it. *)
Definition follows_table (a b c d v1 v2 v3 v4 v5 : Q) (x : Q) (s : pixel)
  : Prop :=
  (x <= a -> s = Some v1) /\
  (a < x <= b -> s = Some v2) /\
  (b < x <= c -> s = Some v3) /\
  (c < x <= d -> s = Some v4) /\
  (d < x -> s = Some v5).

(** What a five-band chain of the script gives at an unmasked pixel. *)
Definition scored (rules : Image -> list rule)
  (a b c d v1 v2 v3 v4 v5 : Q) : Prop :=
  forall (img : Image) (p : cell) (x : Q),
    img p = Some x ->
    where_chain (constant 0) (rules img) p
      = Some (band a b c d v1 v2 v3 v4 v5 x)
    /\ fired (rules img) p = 1%nat
    /\ follows_table a b c d v1 v2 v3 v4 v5 x
         (where_chain (constant 0) (rules img) p).

(** The five score layers hold [s1 .. s5] at the pixel [p]. *)
Definition scores_at (S R L DW DR : Image) (p : cell)
  (s1 s2 s3 s4 s5 : Q) : Prop :=
  S p = Some s1 /\ R p = Some s2 /\ L p = Some s3 /\ DW p = Some s4
  /\ DR p = Some s5.

(** Every weight is non-negative. *)
Definition nonneg (w : W.t) : Prop :=
  0 <= W.slope w /\ 0 <= W.roughness w /\ 0 <= W.landcover w
  /\ 0 <= W.distWater w /\ 0 <= W.distRoad w.

(** A number that is one of the five ordinal scores. *)
Definition score_value (s : Q) : Prop :=
  s = 1 \/ s = 2 \/ s = 3 \/ s = 4 \/ s = 5.

(** The weighted sum, written out. *)
Definition raw_sum (w : W.t) (s1 s2 s3 s4 s5 : Q) : Q :=
  s1 * W.slope w + s2 * W.roughness w + s3 * W.landcover w
  + s4 * W.distWater w + s5 * W.distRoad w.

(** The class codes the chain tests. *)
Definition lcCodes : list Q := [10; 20; 30; 40; 50; 60; 70; 80; 90; 100].

(** The image holds a value at the cell. *)
Definition unmasked (img : Image) (p : cell) : Prop :=
  exists v : Q, img p = Some v.

(** The cell (x, y) alone. *)
Definition at_cell (x y : Z) (c : cell) : bool :=
  ((fst c =? x) && (snd c =? y))%Z.

(** Sources whose surface-water layer is masked at the cell (0,0) only,
    with water one cell to its east and a road one cell to its
    north-east; slope 10, roughness 2 and shrubland everywhere. *)
Definition gap_sources : Sources :=
  {| src_slope := constant 10;
     src_roughness := constant 2;
     src_worldCover := constant 20;
     src_gsw := fun c => if at_cell 0 0 c then None
                         else if at_cell 1 0 c then Some 90
                         else Some 0;
     src_roads := at_cell 1 1 |}.

(** The claim C7 as the specification states it: a cell masked in a source
    layer has a masked susceptibility. *)
Definition masks_propagate : Prop :=
  forall (beyond : pixel) (w : W.t) (src : Sources) (p : cell),
    src_slope src p = None \/ src_roughness src p = None
    \/ src_worldCover src p = None \/ src_gsw src p = None ->
    pipeline beyond w src p = None.

(** Some weight is negative. *)
Definition has_negative (w : W.t) : Prop :=
  W.slope w < 0 \/ W.roughness w < 0 \/ W.landcover w < 0
  \/ W.distWater w < 0 \/ W.distRoad w < 0.

(** The claim C8 as the specification states it: a weight vector with a
    negative weight is rejected. *)
Definition rejects_negative_weights : Prop :=
  forall (beyond : pixel) (w : W.t) (src : Sources) (aoi : list cell),
    has_negative w -> run beyond w src aoi = Rejected.

(** The weights of the script with the slope weight negated. *)
Definition negative_weights : W.t :=
  {| W.slope := - 0.45;
     W.roughness := 0.15;
     W.landcover := 0.20;
     W.distWater := 0.10;
     W.distRoad := 0.10 |}.

(** The invariant of the scan of [nearest_sq]: [r] is the least squared
    distance among [best] and the features met in [l]. *)
Definition least_among (a : Image) (c : cell) (l : list (Z * Z))
  (best r : option Z) : Prop :=
  match r with
  | None =>
      best = None /\ forall d, In d l -> present a (shift c d) = false
  | Some m =>
      (best = Some m
       \/ exists d, In d l /\ present a (shift c d) = true
                    /\ sq_euclidean d = m)
      /\ (forall m0, best = Some m0 -> (m <= m0)%Z)
      /\ (forall d, In d l -> present a (shift c d) = true ->
                    (m <= sq_euclidean d)%Z)
  end.

(** A length in metres that is 30 m times the Euclidean distance whose
    square, in cells, is [sq]. *)
Definition metres_of_sq (sq : Z) (d : Q) : Prop :=
  0 <= d /\ d * d == inject_Z (900 * sq).

(** One water cell, two cells east of the origin. *)
Definition water_two_east : Image :=
  fun c => if at_cell 2 0 c then Some 90 else Some 0.

(** Both pixels are unmasked and the first holds at most the second. *)
Definition px_le (a b : pixel) : Prop :=
  exists x y : Q, a = Some x /\ b = Some y /\ x <= y.

(** The score the two distance chains give to a cell whose nearest feature
    is at the squared distance [m], in cells. *)
Definition score_of_sq (m : Z) : Q :=
  if (m <=? 1)%Z then 5
  else if (m <=? 3)%Z then 4
  else if (m <=? 8)%Z then 3
  else if (m <=? 16)%Z then 2
  else 1.

(** Exact arithmetic against binary64, on the scores 1..5 given as
    integers: the score as a binary64 number, a class as an integer, the
    susceptibility and the class of the exact definitions with the weights
    of the script, the class the binary64 arithmetic gives, and whether
    the exact susceptibility sits on a breakpoint. *)
Definition score64 (z : Z) : float :=
  match z with
  | 0%Z => 0%float
  | 1%Z => 1%float
  | 2%Z => 2%float
  | 3%Z => 3%float
  | 4%Z => 4%float
  | _ => 5%float
  end.

Definition class_of64 (f : float) : Z :=
  if (f =? 1)%float then 1%Z
  else if (f =? 2)%float then 2%Z
  else if (f =? 3)%float then 3%Z
  else if (f =? 4)%float then 4%Z
  else if (f =? 5)%float then 5%Z
  else 0%Z.

Definition exact_susceptibility (a b c d e : Z) : pixel :=
  susceptibility weights
    (weighted weights (constant (inject_Z a)) (constant (inject_Z b))
       (constant (inject_Z c)) (constant (inject_Z d))
       (constant (inject_Z e))) (0, 0)%Z.

Definition exact_class (a b c d e : Z) : Z :=
  match susClass
          (susceptibility weights
             (weighted weights (constant (inject_Z a))
                (constant (inject_Z b)) (constant (inject_Z c))
                (constant (inject_Z d)) (constant (inject_Z e))))
          (0, 0)%Z with
  | Some q => Qfloor q
  | None => 0%Z
  end.

Definition binary64_class (a b c d e : Z) : Z :=
  class_of64
    (Binary64.susClass64
       (Binary64.overlay64 Binary64.weights64 (score64 a) (score64 b)
          (score64 c) (score64 d) (score64 e))).

Definition on_breakpoint (s : pixel) : bool :=
  match s with
  | Some q =>
      Qeq_bool q 0.2 || Qeq_bool q 0.4 || Qeq_bool q 0.6 || Qeq_bool q 0.8
  | None => false
  end.

(** The score combinations (slope, roughness, land cover, distance to
    water, distance to road) whose binary64 class is not the exact one,
    with the weights of the script. *)
Definition rounded_up : list (Z * Z * Z * Z * Z) :=
  [ (3, 3, 3, 1, 5); (3, 3, 3, 2, 4); (3, 3, 3, 4, 2); (3, 3, 3, 5, 1);
    (3, 3, 4, 2, 2); (3, 3, 4, 3, 1); (3, 5, 1, 2, 5); (3, 5, 1, 3, 4);
    (3, 5, 1, 5, 2); (3, 5, 3, 1, 2); (3, 5, 3, 2, 1); (4, 2, 1, 2, 5);
    (4, 2, 1, 3, 4); (4, 2, 1, 5, 2); (4, 2, 3, 1, 2); (4, 2, 3, 2, 1);
    (4, 4, 1, 2, 2); (4, 4, 1, 3, 1); (5, 1, 1, 2, 2); (5, 1, 1, 3, 1);
    (5, 3, 3, 3, 4) ]%Z.

Definition same_scores (t u : Z * Z * Z * Z * Z) : bool :=
  let '(a, b, c, d, e) := t in
  let '(a', b', c', d', e') := u in
  ((a =? a') && (b =? b') && (c =? c') && (d =? d') && (e =? e'))%Z.

Definition is_rounded_up (a b c d e : Z) : bool :=
  existsb (same_scores (a, b, c, d, e)) rounded_up.

(** The comparison of the two classes at one combination of scores. *)
Definition classes_compare (a b c d e : Z) : bool :=
  if is_rounded_up a b c d e then
    on_breakpoint (exact_susceptibility a b c d e)
    && (binary64_class a b c d e =? exact_class a b c d e + 1)%Z
  else (binary64_class a b c d e =? exact_class a b c d e)%Z.

Definition for_ordinals (P : Z -> Z -> Z -> Z -> Z -> bool) : bool :=
  let l := [1; 2; 3; 4; 5]%Z in
  forallb (fun a => forallb (fun b => forallb (fun c => forallb (fun d =>
    forallb (fun e => P a b c d e) l) l) l) l) l.

(* ================================================================= *)
(** ** Five-band where-chains *)
(* ================================================================= *)

Lemma Qle_bool_false (x y : Q) : Qle_bool x y = false <-> y < x.
Proof.
  rewrite <- not_true_iff_false, Qle_bool_iff. split; intro H; lra.
Qed.

Ltac reflect_Qle :=
  repeat match goal with
         | H : Qle_bool _ _ = true |- _ => apply Qle_bool_iff in H
         | H : Qle_bool _ _ = false |- _ => apply Qle_bool_false in H
         end.

Section BandLemmas.

Variables a b c d : Q.
Variables v1 v2 v3 v4 v5 : Q.
Hypothesis Hab : a < b.
Hypothesis Hbc : b < c.
Hypothesis Hcd : c < d.

Local Abbreviation rules := (bandRules a b c d v1 v2 v3 v4 v5).
Local Abbreviation lookup := (band a b c d v1 v2 v3 v4 v5).

Ltac split_bands x :=
  destruct (Qle_bool x a) eqn:Ea; destruct (Qle_bool x b) eqn:Eb;
  destruct (Qle_bool x c) eqn:Ec; destruct (Qle_bool x d) eqn:Ed;
  try reflexivity;
  exfalso; reflect_Qle; lra.

(** The sequential overwrite computes the interval lookup. *)
Lemma band_chain (img : Image) (p : cell) (x : Q) :
  img p = Some x ->
  where_chain (constant 0) (rules img) p = Some (lookup x).
Proof using Hab Hbc Hcd.
  intro H.
  unfold where_chain, bandRules, band.
  cbn [fold_left fst snd].
  unfold where_, and_, lte, gt, constant; rewrite H.
  cbn [px_map px_map2 px_where].
  split_bands x.
Qed.

(** Exactly one of the five tests selects an unmasked pixel. *)
Lemma band_fired (img : Image) (p : cell) (x : Q) :
  img p = Some x -> fired (rules img) p = 1%nat.
Proof using Hab Hbc Hcd.
  intro H.
  unfold fired, bandRules; cbn [filter].
  unfold selects; cbn [fst].
  unfold and_, lte, gt; rewrite H.
  cbn [px_map px_map2].
  split_bands x.
Qed.

Lemma band_in (x : Q) :
  lookup x = v1 \/ lookup x = v2 \/ lookup x = v3 \/ lookup x = v4
  \/ lookup x = v5.
Proof.
  unfold band.
  destruct (Qle_bool x a); [tauto |].
  destruct (Qle_bool x b); [tauto |].
  destruct (Qle_bool x c); [tauto |].
  destruct (Qle_bool x d); tauto.
Qed.

Lemma band_table (x : Q) :
  follows_table a b c d v1 v2 v3 v4 v5 x (Some (lookup x)).
Proof using Hab Hbc Hcd.
  unfold follows_table, band.
  destruct (Qle_bool x a) eqn:Ea; destruct (Qle_bool x b) eqn:Eb;
  destruct (Qle_bool x c) eqn:Ec; destruct (Qle_bool x d) eqn:Ed;
  reflect_Qle;
  repeat split; intros; try reflexivity; exfalso; lra.
Qed.

End BandLemmas.

(** The script's chains are instances of the five-band shape. *)
Lemma slopeRules_bands (img : Image) :
  slopeRules img = bandRules 5 15 25 35 1 2 3 4 5 img.
Proof. reflexivity. Qed.

Lemma roughRules_bands (img : Image) :
  roughRules img = bandRules 1 3 6 12 1 2 3 4 5 img.
Proof. reflexivity. Qed.

Lemma distWaterRules_bands (img : Image) :
  distWaterRules img = bandRules 50 100 250 500 5 4 3 2 1 img.
Proof. reflexivity. Qed.

Lemma distRoadRules_bands (img : Image) :
  distRoadRules img = bandRules 50 100 250 500 5 4 3 2 1 img.
Proof. reflexivity. Qed.

Lemma susRules_bands (img : Image) :
  susRules img = bandRules 0.2 0.4 0.6 0.8 1 2 3 4 5 img.
Proof. reflexivity. Qed.

Lemma bands_scored (rules : Image -> list rule)
  (a b c d v1 v2 v3 v4 v5 : Q) :
  (forall img, rules img = bandRules a b c d v1 v2 v3 v4 v5 img) ->
  a < b -> b < c -> c < d ->
  scored rules a b c d v1 v2 v3 v4 v5.
Proof.
  intros E Hab Hbc Hcd img p x H. rewrite E.
  rewrite (band_chain a b c d v1 v2 v3 v4 v5 Hab Hbc Hcd img p x H).
  repeat split;
    try apply (band_table a b c d v1 v2 v3 v4 v5 Hab Hbc Hcd x).
  apply (band_fired a b c d v1 v2 v3 v4 v5 Hab Hbc Hcd img p x H).
Qed.

Lemma slope_scored : scored slopeRules 5 15 25 35 1 2 3 4 5.
Proof. apply bands_scored; [apply slopeRules_bands | lra ..]. Qed.

Lemma rough_scored : scored roughRules 1 3 6 12 1 2 3 4 5.
Proof. apply bands_scored; [apply roughRules_bands | lra ..]. Qed.

Lemma distWater_scored : scored distWaterRules 50 100 250 500 5 4 3 2 1.
Proof. apply bands_scored; [apply distWaterRules_bands | lra ..]. Qed.

Lemma distRoad_scored : scored distRoadRules 50 100 250 500 5 4 3 2 1.
Proof. apply bands_scored; [apply distRoadRules_bands | lra ..]. Qed.

Lemma sus_scored : scored susRules 0.2 0.4 0.6 0.8 1 2 3 4 5.
Proof. apply bands_scored; [apply susRules_bands | lra ..]. Qed.

Lemma band_ordinal_up (a b c d x : Q) :
  ordinal (Some (band a b c d 1 2 3 4 5 x)).
Proof.
  unfold ordinal.
  destruct (band_in a b c d 1 2 3 4 5 x) as [E | [E | [E | [E | E]]]];
    rewrite E; tauto.
Qed.

Lemma band_ordinal_down (a b c d x : Q) :
  ordinal (Some (band a b c d 5 4 3 2 1 x)).
Proof.
  unfold ordinal.
  destruct (band_in a b c d 5 4 3 2 1 x) as [E | [E | [E | [E | E]]]];
    rewrite E; tauto.
Qed.

(* ================================================================= *)
(** ** Reclassification (claim C2) *)
(* ================================================================= *)

(** C2.  At every unmasked pixel, whatever its value [x], each of the four
    reclassification chains (slope, roughness, distance to water, distance
    to road) gives one score in 1..5, exactly one of the chain's five
    tests selects the pixel, and the score is the one of the breakpoint
    table with every breakpoint on the lower, closed side; slope 5.0 is
    scored 1 and slope 5.0001 is scored 2. *)
Theorem reclass_exactly_one_score (img : Image) (p : cell) (x : Q) :
  img p = Some x ->
  (ordinal (slopeScore img p)
   /\ fired (slopeRules img) p = 1%nat
   /\ follows_table 5 15 25 35 1 2 3 4 5 x (slopeScore img p))
  /\ (ordinal (roughScore img p)
      /\ fired (roughRules img) p = 1%nat
      /\ follows_table 1 3 6 12 1 2 3 4 5 x (roughScore img p))
  /\ (ordinal (distWaterScore img p)
      /\ fired (distWaterRules img) p = 1%nat
      /\ follows_table 50 100 250 500 5 4 3 2 1 x (distWaterScore img p))
  /\ (ordinal (distRoadScore img p)
      /\ fired (distRoadRules img) p = 1%nat
      /\ follows_table 50 100 250 500 5 4 3 2 1 x (distRoadScore img p))
  /\ slopeScore (constant 5.0) p = Some 1
  /\ slopeScore (constant 5.0001) p = Some 2.
Proof.
  intro H.
  destruct (slope_scored img p x H) as (Es & Fs & Ts).
  destruct (rough_scored img p x H) as (Er & Fr & Tr).
  destruct (distWater_scored img p x H) as (Ew & Fw & Tw).
  destruct (distRoad_scored img p x H) as (Ed & Fd & Td).
  unfold slopeScore, roughScore, distWaterScore, distRoadScore.
  split; [| split; [| split; [| split; [| split; reflexivity]]]].
  - rewrite Es at 1. auto using band_ordinal_up.
  - rewrite Er at 1. auto using band_ordinal_up.
  - rewrite Ew at 1. auto using band_ordinal_down.
  - rewrite Ed at 1. auto using band_ordinal_down.
Qed.

Lemma reclass_exactly_one_score_witness :
  constant 15 (0, 0)%Z = Some 15
  /\ slopeScore (constant 15) (0, 0)%Z = Some 2
  /\ fired (slopeRules (constant 15)) (0, 0)%Z = 1%nat.
Proof.
  split; [reflexivity |].
  destruct (reclass_exactly_one_score (constant 15) (0, 0)%Z 15 eq_refl)
    as ((_ & F & T) & _).
  split; [| exact F].
  destruct T as (_ & T2 & _). apply T2. lra.
Defined.

(* ================================================================= *)
(** ** Weighted overlay in exact arithmetic *)
(* ================================================================= *)

Lemma score_value_range (s : Q) : score_value s -> 1 <= s <= 5.
Proof.
  intros [E | [E | [E | [E | E]]]]; subst s; lra.
Qed.

Lemma q_divide_div (x y : Q) : q_divide x y == x / y.
Proof.
  unfold q_divide. destruct (Qeq_bool y 0) eqn:E; [| reflexivity].
  apply Qeq_bool_iff in E. rewrite E. unfold Qdiv, Qinv; simpl. lra.
Qed.

Lemma maxPossible_sum (w : W.t) : maxPossible w == 5 * W.sum w.
Proof. reflexivity. Qed.

Lemma weighted_at (w : W.t) (S R L DW DR : Image) (p : cell)
  (s1 s2 s3 s4 s5 : Q) :
  scores_at S R L DW DR p s1 s2 s3 s4 s5 ->
  weighted w S R L DW DR p = Some (raw_sum w s1 s2 s3 s4 s5).
Proof.
  intros (H1 & H2 & H3 & H4 & H5).
  unfold weighted, add, multiply.
  rewrite H1, H2, H3, H4, H5. reflexivity.
Qed.

Lemma susceptibility_at (w : W.t) (img : Image) (p : cell) (raw : Q) :
  img p = Some raw ->
  susceptibility w img p = Some (q_divide raw (maxPossible w)).
Proof.
  intro H. unfold susceptibility, divide. rewrite H. reflexivity.
Qed.

(** Bounds of the weighted sum for scores between 1 and 5. *)
Lemma raw_sum_bounds (w : W.t) (s1 s2 s3 s4 s5 : Q) :
  nonneg w ->
  1 <= s1 <= 5 -> 1 <= s2 <= 5 -> 1 <= s3 <= 5 -> 1 <= s4 <= 5 ->
  1 <= s5 <= 5 ->
  W.sum w <= raw_sum w s1 s2 s3 s4 s5 <= 5 * W.sum w.
Proof.
  intros (W1 & W2 & W3 & W4 & W5) B1 B2 B3 B4 B5.
  unfold raw_sum, W.sum. nra.
Qed.

Lemma q_divide_bounds (raw m lo : Q) :
  0 <= lo -> lo * m <= raw <= m -> 0 <= m ->
  (m == 0 -> q_divide raw m == 0)
  /\ (0 < m -> lo <= q_divide raw m <= 1).
Proof.
  intros Hlo [Hl Hu] Hm. split.
  - intro E. unfold q_divide.
    apply Qeq_bool_iff in E. rewrite E. reflexivity.
  - intro Hpos. rewrite q_divide_div. split.
    + apply Qle_shift_div_l; assumption.
    + apply Qle_shift_div_r; [assumption | lra].
Qed.

Lemma nonneg_sum (w : W.t) : nonneg w -> 0 <= maxPossible w.
Proof.
  intros (W1 & W2 & W3 & W4 & W5). unfold maxPossible. lra.
Qed.

(** What the combiner gives at a pixel whose five scores are between 1
    and 5, for non-negative weights. *)
Lemma combiner_bounds (w : W.t) (S R L DW DR : Image) (p : cell)
  (s1 s2 s3 s4 s5 : Q) :
  scores_at S R L DW DR p s1 s2 s3 s4 s5 ->
  1 <= s1 <= 5 -> 1 <= s2 <= 5 -> 1 <= s3 <= 5 -> 1 <= s4 <= 5 ->
  1 <= s5 <= 5 ->
  nonneg w ->
  exists sus : Q,
    susceptibility w (weighted w S R L DW DR) p = Some sus
    /\ sus == raw_sum w s1 s2 s3 s4 s5 / (5 * W.sum w)
    /\ (W.sum w == 0 -> sus == 0)
    /\ (0 < W.sum w -> 1 # 5 <= sus)
    /\ 0 <= sus <= 1.
Proof.
  intros HS B1 B2 B3 B4 B5 HW.
  pose proof (raw_sum_bounds w s1 s2 s3 s4 s5 HW B1 B2 B3 B4 B5) as [Lo Hi].
  pose proof (nonneg_sum w HW) as Hm.
  pose proof (maxPossible_sum w) as Em.
  exists (q_divide (raw_sum w s1 s2 s3 s4 s5) (maxPossible w)).
  assert (Hb : (1 # 5) * maxPossible w <= raw_sum w s1 s2 s3 s4 s5
               <= maxPossible w) by lra.
  assert (H5 : 0 <= 1 # 5) by lra.
  pose proof (q_divide_bounds _ _ _ H5 Hb Hm) as [Z0 Pos].
  split; [| split; [| split; [| split]]].
  - apply susceptibility_at, weighted_at, HS.
  - rewrite q_divide_div, Em. reflexivity.
  - intro E. apply Z0. lra.
  - intro P. apply Pos. lra.
  - destruct (Qlt_le_dec 0 (W.sum w)) as [P | N].
    + assert (Q : 0 < maxPossible w) by lra.
      destruct (Pos Q) as [L' U']. lra.
    + rewrite Z0; lra.
Qed.

Lemma ordinal_not_zero (s : pixel) : ordinal s -> s <> Some 0.
Proof.
  intros [E | [E | [E | [E | E]]]]; rewrite E; discriminate.
Qed.

Lemma susClass_ordinal (img : Image) (p : cell) (x : Q) :
  img p = Some x -> ordinal (susClass img p).
Proof.
  intro H. destruct (sus_scored img p x H) as (E & _).
  unfold susClass. rewrite E. apply band_ordinal_up.
Qed.

(* ================================================================= *)
(** ** Classification (claim C4) *)
(* ================================================================= *)

Lemma susClass_value (img : Image) (p : cell) (x : Q) :
  img p = Some x ->
  follows_table 0.2 0.4 0.6 0.8 1 2 3 4 5 x (susClass img p).
Proof.
  intro H. destruct (sus_scored img p x H) as (_ & _ & T). exact T.
Qed.

(** C4.  With the weights of the script (0.45, 0.15, 0.20, 0.10, 0.10), a
    pixel with slope score 2, roughness score 2, land-cover score 3,
    distance-to-water score 2 and distance-to-road score 4 has raw value
    2.4, the maximum possible is 5, the susceptibility is 0.48 and the
    class is 3.  The predictor values of the scenario (slope 10, roughness
    2, land cover 20 = shrubland, 300 m to water, 60 m to a road) are
    scored 2, 2, 3, 2, 4. *)
Theorem scenario_class_three (S R L DW DR : Image) (p : cell) :
  scores_at S R L DW DR p 2 2 3 2 4 ->
  (exists raw sus : Q,
     weighted weights S R L DW DR p = Some raw
     /\ raw == 2.4
     /\ maxPossible weights == 5
     /\ susceptibility weights (weighted weights S R L DW DR) p = Some sus
     /\ sus == 0.48
     /\ susClass (susceptibility weights (weighted weights S R L DW DR)) p
        = Some 3)
  /\ scores_at (slopeScore (constant 10)) (roughScore (constant 2))
       (lcScore (constant 20)) (distWaterScore (constant 300))
       (distRoadScore (constant 60)) p 2 2 3 2 4.
Proof.
  intro HS. split; [| repeat split].
  pose proof (weighted_at weights S R L DW DR p 2 2 3 2 4 HS) as Ew.
  pose proof (susceptibility_at weights _ p _ Ew) as Es.
  exists (raw_sum weights 2 2 3 2 4).
  exists (q_divide (raw_sum weights 2 2 3 2 4) (maxPossible weights)).
  split; [exact Ew |].
  split; [reflexivity |].
  split; [reflexivity |].
  split; [exact Es |].
  split; [reflexivity |].
  destruct (susClass_value _ p _ Es) as (_ & _ & T3 & _).
  apply T3. split; [reflexivity | discriminate].
Qed.

Lemma scenario_class_three_witness :
  susClass
    (overlay weights (constant 10) (constant 2) (constant 20)
       (constant 300) (constant 60)) (0, 0)%Z = Some 3.
Proof.
  destruct (scenario_class_three
              (slopeScore (constant 10)) (roughScore (constant 2))
              (lcScore (constant 20)) (distWaterScore (constant 300))
              (distRoadScore (constant 60)) (0, 0)%Z)
    as ((raw & sus & _ & _ & _ & _ & _ & C) & _).
  - repeat split.
  - exact C.
Defined.

(* ================================================================= *)
(** ** Land-cover scores (claim C6) *)
(* ================================================================= *)

(** The ten class codes the chain tests score as the table says. *)
Lemma lcScore_listed (p : cell) :
  lcScore (constant 10) p = Some 1
  /\ lcScore (constant 20) p = Some 3
  /\ lcScore (constant 30) p = Some 3
  /\ lcScore (constant 40) p = Some 3
  /\ lcScore (constant 50) p = Some 4
  /\ lcScore (constant 60) p = Some 5
  /\ lcScore (constant 70) p = Some 1
  /\ lcScore (constant 80) p = Some 1
  /\ lcScore (constant 90) p = Some 2
  /\ lcScore (constant 100) p = Some 2.
Proof. repeat split; reflexivity. Qed.

(** C6.  The land-cover chain tests the codes 10, 20, ..., 90 and 100.
    The class code 95, the land-cover map's mangroves class, is tested by
    no rule and keeps the initial 0, which is not one of 1..5; the score 2
    the script comments as mangroves is given to the code 100. *)
Theorem lcScore_mangroves_unscored (p : cell) :
  lcScore (constant 95) p = Some 0
  /\ fired (lcRules (constant 95)) p = 0%nat
  /\ ~ ordinal (lcScore (constant 95) p)
  /\ lcScore (constant 100) p = Some 2.
Proof.
  split; [reflexivity | split; [reflexivity | split; [| reflexivity]]].
  intros [E | [E | [E | [E | E]]]]; discriminate E.
Qed.

(** A class code that no rule tests keeps the initial 0. *)
Lemma lcScore_unlisted (worldCover : Image) (p : cell) (x : Q) :
  worldCover p = Some x ->
  (forall k : Q, In k lcCodes -> ~ x == k) ->
  lcScore worldCover p = Some 0.
Proof.
  intros H N.
  assert (F : forall k : Q, In k lcCodes -> Qeq_bool x k = false).
  { intros k I. apply not_true_iff_false. intro E.
    apply Qeq_bool_iff in E. exact (N k I E). }
  unfold lcScore, where_chain, lcRules; cbn [fold_left fst snd].
  unfold where_, eq_, constant; rewrite H; cbn [px_map px_where].
  rewrite !F by (unfold lcCodes; simpl; tauto).
  reflexivity.
Qed.

(* ================================================================= *)
(** ** Masked cells (claim C7) *)
(* ================================================================= *)

(** A where-chain never masks a pixel of its initial image. *)
Lemma where_chain_unmasked (rules : list rule) :
  forall (init : Image) (p : cell),
    unmasked init p -> unmasked (where_chain init rules) p.
Proof.
  unfold where_chain.
  induction rules as [| r rules IH]; intros init p [v H]; cbn [fold_left].
  - exists v. exact H.
  - apply IH. unfold unmasked, where_. rewrite H. cbn [px_where].
    destruct (fst r p) as [t |]; [destruct (nonzero t) |]; eauto.
Qed.

(** A chain whose tests are all masked at a pixel leaves its initial
    value there. *)
Lemma where_chain_masked_tests (rules : list rule) :
  forall (init : Image) (p : cell),
    Forall (fun r => fst r p = None) rules ->
    where_chain init rules p = init p.
Proof.
  unfold where_chain.
  induction rules as [| r rules IH]; intros init p F; cbn [fold_left].
  - reflexivity.
  - inversion F as [| r' l' Hr Hl]; subst.
    rewrite (IH _ p Hl). unfold where_, rule, Image, pixel in *.
    cbn beta. rewrite Hr.
    destruct (init p); reflexivity.
Qed.

Lemma chain_from_zero_unmasked (rules : list rule) (p : cell) :
  unmasked (where_chain (constant 0) rules) p.
Proof. apply where_chain_unmasked. exists 0. reflexivity. Qed.

Lemma overlay_unmasked (w : W.t)
  (slope roughness worldCover dtWater dtRoad : Image) (p : cell) :
  unmasked (overlay w slope roughness worldCover dtWater dtRoad) p.
Proof.
  destruct (chain_from_zero_unmasked (slopeRules slope) p) as [s1 H1].
  destruct (chain_from_zero_unmasked (roughRules roughness) p) as [s2 H2].
  destruct (chain_from_zero_unmasked (lcRules worldCover) p) as [s3 H3].
  destruct (chain_from_zero_unmasked (distWaterRules dtWater) p)
    as [s4 H4].
  destruct (chain_from_zero_unmasked (distRoadRules dtRoad) p) as [s5 H5].
  eexists. unfold overlay.
  apply susceptibility_at, (weighted_at w _ _ _ _ _ p s1 s2 s3 s4 s5).
  repeat split; assumption.
Qed.

(** A masked predictor pixel is scored 0 by each chain. *)
Lemma masked_scores_zero (img : Image) (p : cell) :
  img p = None ->
  slopeScore img p = Some 0 /\ roughScore img p = Some 0
  /\ lcScore img p = Some 0 /\ distWaterScore img p = Some 0
  /\ distRoadScore img p = Some 0.
Proof.
  intro H.
  unfold slopeScore, roughScore, lcScore, distWaterScore, distRoadScore.
  repeat split;
    (rewrite where_chain_masked_tests; [reflexivity |]);
    repeat constructor; cbn [fst];
    unfold and_, lte, gt, eq_; rewrite H; reflexivity.
Qed.

(** C7, as the script has it.  The susceptibility layer is masked at no
    cell, whatever the masks of the source layers: a cell masked in the
    surface-water layer counts as a cell without water, and a predictor
    that is masked at a cell is scored 0 there, so that the susceptibility
    of the cell is computed from the remaining scores. *)
Theorem susceptibility_never_masked (beyond : pixel) (w : W.t)
  (src : Sources) (p : cell) :
  unmasked (pipeline beyond w src) p
  /\ (src_gsw src p = None -> waterBinary (src_gsw src) p = Some 0)
  /\ (src_slope src p = None -> slopeScore (src_slope src) p = Some 0)
  /\ (src_roughness src p = None ->
      roughScore (src_roughness src) p = Some 0)
  /\ (src_worldCover src p = None ->
      lcScore (src_worldCover src) p = Some 0).
Proof.
  split; [apply overlay_unmasked |].
  split; [| split; [| split]]; intro H.
  - unfold waterBinary, toByte, unmask, waterMask, gt. rewrite H.
    reflexivity.
  - apply (masked_scores_zero _ p H).
  - apply (masked_scores_zero _ p H).
  - apply (masked_scores_zero _ p H).
Qed.

Lemma susceptibility_never_masked_witness :
  src_gsw gap_sources (0, 0)%Z = None
  /\ waterBinary (src_gsw gap_sources) (0, 0)%Z = Some 0
  /\ unmasked (pipeline None weights gap_sources) (0, 0)%Z.
Proof.
  destruct (susceptibility_never_masked None weights gap_sources (0, 0)%Z)
    as (U & G & _).
  split; [reflexivity | split; [apply G; reflexivity | exact U]].
Defined.

(** It fails at the cell (0,0) of [gap_sources]: the surface-water layer
    is masked there and the susceptibility is 0.54. *)
Lemma coverage_gap_is_scored :
  src_gsw gap_sources (0, 0)%Z = None
  /\ (exists v : Q,
        pipeline None weights gap_sources (0, 0)%Z = Some v /\ v == 0.54)
  /\ ~ masks_propagate.
Proof.
  assert (E : exists v : Q,
             pipeline None weights gap_sources (0, 0)%Z = Some v
             /\ v == 0.54).
  { eexists. split; [vm_compute; reflexivity | reflexivity]. }
  split; [reflexivity | split; [exact E |]].
  intro M. destruct E as (v & E & _).
  rewrite (M None weights gap_sources (0, 0)%Z) in E; [discriminate E |].
  right; right; right. reflexivity.
Qed.

(* ================================================================= *)
(** ** Weights are not validated (claim C8) *)
(* ================================================================= *)

(** [run] completes on them, and the susceptibility it computes at the
    cell (0,0) of [gap_sources] is 1.8. *)
Lemma negative_weight_is_used :
  has_negative negative_weights
  /\ (exists o : Outputs,
        run None negative_weights gap_sources [(0, 0)%Z] = Completed o
        /\ exists v : Q, out_susceptibility o (0, 0)%Z = Some v /\ v == 1.8)
  /\ ~ rejects_negative_weights.
Proof.
  assert (N : has_negative negative_weights) by (left; reflexivity).
  split; [exact N | split].
  - eexists. split; [reflexivity |].
    eexists. split; [vm_compute; reflexivity | reflexivity].
  - intro R.
    specialize (R None negative_weights gap_sources [(0, 0)%Z] N).
    discriminate R.
Qed.

(** C8, as the script has it.  [run] refuses no weight vector: for any
    weights, negative ones included, it completes, and its susceptibility
    layer is computed from the weights as given, raw = sum(score_i *
    weight_i) divided by 5 * (sum of the weights). *)
Theorem run_accepts_any_weights (beyond : pixel) (w : W.t) (src : Sources)
  (aoi : list cell) :
  exists o : Outputs,
    run beyond w src aoi = Completed o
    /\ out_susceptibility o = pipeline beyond w src
    /\ forall (p : cell) (s1 s2 s3 s4 s5 : Q),
         scores_at (slopeScore (src_slope src))
           (roughScore (src_roughness src)) (lcScore (src_worldCover src))
           (distWaterScore (dtWater beyond (src_gsw src)))
           (distRoadScore (dtRoad beyond (src_roads src))) p
           s1 s2 s3 s4 s5 ->
         out_susceptibility o p
         = Some (q_divide (raw_sum w s1 s2 s3 s4 s5) (maxPossible w)).
Proof.
  eexists. split; [reflexivity | split; [reflexivity |]].
  intros p s1 s2 s3 s4 s5 HS. cbn [out_susceptibility].
  unfold pipeline, overlay.
  apply susceptibility_at, weighted_at, HS.
Qed.

Lemma run_accepts_any_weights_witness :
  exists o : Outputs,
    run None negative_weights gap_sources [(0, 0)%Z] = Completed o
    /\ out_susceptibility o (0, 0)%Z
       = Some (q_divide (raw_sum negative_weights 2 2 3 5 4)
                 (maxPossible negative_weights)).
Proof.
  destruct (run_accepts_any_weights None negative_weights gap_sources
              [(0, 0)%Z]) as (o & E & _ & V).
  exists o. split; [exact E |].
  apply V. repeat split; vm_compute; reflexivity.
Defined.

(* ================================================================= *)
(** ** Proximity (claim C5) *)
(* ================================================================= *)

(** The water mask is the occurrence strictly above 10. *)
Lemma waterMask_iff (gsw : Image) (p : cell) :
  present (waterMask gsw) p = true
  <-> exists x : Q, gsw p = Some x /\ 10 < x.
Proof.
  unfold present, waterMask, gt.
  destruct (gsw p) as [x |]; cbn [px_map].
  - destruct (Qle_bool x 10) eqn:E; cbn; reflect_Qle; split.
    + discriminate.
    + intros (y & Ey & L). injection Ey as <-. lra.
    + intros _. exists x. split; [reflexivity | exact E].
    + reflexivity.
  - split; [discriminate | intros (y & Ey & _); discriminate Ey].
Qed.

Lemma waterBinary_present (gsw : Image) (p : cell) :
  present (waterBinary gsw) p = present (waterMask gsw) p.
Proof.
  unfold present, waterBinary, toByte, unmask, waterMask, gt.
  destruct (gsw p) as [x |]; cbn [px_map]; [| reflexivity].
  destruct (Qle_bool x 10); reflexivity.
Qed.

Lemma roadsRaster_present (roads : cell -> bool) (p : cell) :
  present (roadsRaster roads) p = roads p.
Proof.
  unfold present, roadsRaster, paint, toByte, constant.
  destruct (roads p); reflexivity.
Qed.

(** The window of a neighbourhood [n]. *)
Lemma in_span (n k : Z) : (0 <= n)%Z -> In k (span n) <-> (- n <= k <= n)%Z.
Proof.
  intro Hn. unfold span. rewrite in_map_iff. split.
  - intros (i & E & I). apply in_seq in I. lia.
  - intro B. exists (Z.to_nat (k + n)). split; [lia |].
    apply in_seq. lia.
Qed.

Lemma in_offsets (n : Z) (d : Z * Z) :
  (0 <= n)%Z ->
  In d (offsets n) <-> (- n <= fst d <= n)%Z /\ (- n <= snd d <= n)%Z.
Proof.
  intro Hn. destruct d as [dx dy]. unfold offsets.
  rewrite in_prod_iff, !in_span by exact Hn. reflexivity.
Qed.

Lemma sq_euclidean_nonneg (d : Z * Z) : (0 <= sq_euclidean d)%Z.
Proof. unfold sq_euclidean. nia. Qed.

Lemma scan_least (a : Image) (c : cell) (l : list (Z * Z)) :
  forall best : option Z,
    least_among a c l best (fold_left (closer a c) l best).
Proof.
  induction l as [| d l IH]; intro best; cbn [fold_left].
  - destruct best as [m |]; cbn.
    + split; [left; reflexivity | split].
      * intros m0 E. injection E as <-. lia.
      * intros d [].
    + split; [reflexivity | intros d []].
  - specialize (IH (closer a c best d)).
    unfold closer in *.
    destruct (fold_left _ l _) as [m |]; cbn in IH |- *.
    + destruct IH as (Src & Le & Min).
      destruct (present a (shift c d)) eqn:P.
      * split; [| split].
        -- destruct Src as [E | (d' & I & P' & S)].
           ++ destruct best as [m0 |]; injection E as E.
              ** destruct (Z.min_spec m0 (sq_euclidean d)) as [[_ M] | [_ M]].
                 --- left. congruence.
                 --- right. exists d. split; [left; reflexivity |].
                     split; [exact P | congruence].
              ** right. exists d. split; [left; reflexivity |].
                 split; [exact P | exact E].
           ++ right. exists d'. split; [right; exact I | split; assumption].
        -- intros m0 E. subst best.
           specialize (Le _ eq_refl). lia.
        -- intros d' [-> | I] P'.
           ++ destruct best as [m0 |]; specialize (Le _ eq_refl); lia.
           ++ apply Min; assumption.
      * split; [| split].
        -- destruct Src as [E | (d' & I & P' & S)].
           ++ left. exact E.
           ++ right. exists d'. split; [right; exact I | split; assumption].
        -- exact Le.
        -- intros d' [-> | I] P'; [congruence | apply Min; assumption].
    + destruct IH as (E & No).
      destruct (present a (shift c d)) eqn:P.
      * destruct best; discriminate E.
      * split; [exact E |].
        intros d' [-> | I]; [exact P | apply No, I].
Qed.

(** [nearest_sq] is the least squared distance to a feature in the
    window, and has no value exactly when the window holds no feature. *)
Lemma nearest_sq_least (n : Z) (a : Image) (c : cell) (m : Z) :
  nearest_sq n a c = Some m ->
  (exists d, In d (offsets n) /\ present a (shift c d) = true
             /\ sq_euclidean d = m)
  /\ (forall d, In d (offsets n) -> present a (shift c d) = true ->
                (m <= sq_euclidean d)%Z).
Proof.
  intro E. pose proof (scan_least a c (offsets n) None) as L.
  fold (nearest_sq n a c) in L. rewrite E in L.
  destruct L as ([F | F] & _ & Min); [discriminate F | tauto].
Qed.

Lemma nearest_sq_none (n : Z) (a : Image) (c : cell) :
  nearest_sq n a c = None ->
  forall d, In d (offsets n) -> present a (shift c d) = false.
Proof.
  intro E. pose proof (scan_least a c (offsets n) None) as L.
  fold (nearest_sq n a c) in L. rewrite E in L. apply L.
Qed.

Lemma shift_zero (c : cell) : shift c (0, 0)%Z = c.
Proof. destruct c as [x y]. unfold shift; cbn. f_equal; lia. Qed.

(** On a feature cell the transform is 0. *)
Lemma transform_zero_on_feature (beyond : pixel) (n : Z) (a : Image)
  (c : cell) :
  (0 <= n)%Z -> present a c = true ->
  fastDistanceTransform beyond n a c = Some 0.
Proof.
  intros Hn P. unfold fastDistanceTransform.
  assert (I : In (0, 0)%Z (offsets n)) by (apply in_offsets; cbn; lia).
  destruct (nearest_sq n a c) as [m |] eqn:E.
  - destruct (nearest_sq_least n a c m E) as ((d & _ & _ & S) & Min).
    specialize (Min (0, 0)%Z I). rewrite shift_zero in Min.
    specialize (Min P). cbn in Min.
    pose proof (sq_euclidean_nonneg d).
    replace m with 0%Z by lia. reflexivity.
  - pose proof (nearest_sq_none n a c E (0, 0)%Z I) as F.
    rewrite shift_zero in F. congruence.
Qed.

(** The distance layers are 30 times the squared distance in cells. *)
Lemma dtWater_value (beyond : pixel) (gsw : Image) (p : cell) (m : Z) :
  nearest_sq 30 (waterBinary gsw) p = Some m ->
  dtWater beyond gsw p = Some (inject_Z m * 30).
Proof.
  intro E. unfold dtWater, multiply, fastDistanceTransform.
  rewrite E. reflexivity.
Qed.

Lemma dtRoad_value (beyond : pixel) (roads : cell -> bool) (p : cell)
  (m : Z) :
  nearest_sq 30 (roadsRaster roads) p = Some m ->
  dtRoad beyond roads p = Some (inject_Z m * 30).
Proof.
  intro E. unfold dtRoad, multiply, fastDistanceTransform.
  rewrite E. reflexivity.
Qed.

Lemma dt_zero_on_feature (beyond : pixel) (gsw : Image)
  (roads : cell -> bool) (p : cell) :
  (present (waterMask gsw) p = true ->
   exists z : Q, dtWater beyond gsw p = Some z /\ z == 0)
  /\ (roads p = true ->
      exists z : Q, dtRoad beyond roads p = Some z /\ z == 0).
Proof.
  split; intro P.
  - rewrite <- waterBinary_present in P.
    unfold dtWater, multiply.
    rewrite (transform_zero_on_feature beyond 30 _ p) by (lia || exact P).
    eexists. split; reflexivity.
  - rewrite <- roadsRaster_present in P.
    unfold dtRoad, multiply.
    rewrite (transform_zero_on_feature beyond 30 _ p) by (lia || exact P).
    eexists. split; reflexivity.
Qed.

(** C5, at an input where the code and the claim part.  With the only
    water two cells east of a cell, the Euclidean distance is 2 cells,
    60 m; the script's distance layer holds 120 there, 30 times the
    squared distance 4.  With the only road 3 cells east and 4 cells
    north, at 5 cells, 150 m, the layer holds 750 and the distance score is
    1, where 150 m is scored 3.  On a feature cell the layer is 0, and an
    occurrence of exactly 10 is not water. *)
Theorem dt_is_thirty_times_squared_distance (beyond : pixel) :
  nearest_sq 30 (waterBinary water_two_east) (0, 0)%Z = Some 4%Z
  /\ dtWater beyond water_two_east (0, 0)%Z = Some 120
  /\ metres_of_sq 4 60
  /\ ~ metres_of_sq 4 120
  /\ dtRoad beyond (at_cell 3 4) (0, 0)%Z = Some 750
  /\ metres_of_sq 25 150
  /\ distRoadScore (dtRoad beyond (at_cell 3 4)) (0, 0)%Z = Some 1
  /\ distRoadScore (constant 150) (0, 0)%Z = Some 3
  /\ dtWater beyond water_two_east (2, 0)%Z = Some 0
  /\ present (waterMask (constant 10)) (0, 0)%Z = false.
Proof.
  assert (W : nearest_sq 30 (waterBinary water_two_east) (0, 0)%Z
              = Some 4%Z) by (vm_compute; reflexivity).
  assert (R : nearest_sq 30 (roadsRaster (at_cell 3 4)) (0, 0)%Z
              = Some 25%Z) by (vm_compute; reflexivity).
  assert (Z0 : nearest_sq 30 (waterBinary water_two_east) (2, 0)%Z
               = Some 0%Z) by (vm_compute; reflexivity).
  assert (DR : dtRoad beyond (at_cell 3 4) (0, 0)%Z = Some 750).
  { rewrite (dtRoad_value beyond _ _ _ R). reflexivity. }
  split; [exact W |].
  split; [rewrite (dtWater_value beyond _ _ _ W); reflexivity |].
  split; [split; [lra | reflexivity] |].
  split; [intros [_ E]; discriminate E |].
  split; [exact DR |].
  split; [split; [lra | reflexivity] |].
  split.
  { destruct (distRoad_scored _ (0, 0)%Z 750 DR) as (_ & _ & T).
    destruct T as (_ & _ & _ & _ & T5). apply T5. lra. }
  split; [reflexivity |].
  split; [rewrite (dtWater_value beyond _ _ _ Z0); reflexivity |].
  reflexivity.
Qed.

(* ================================================================= *)
(** ** Region statistics *)
(* ================================================================= *)

(** The reducer of this development on ten values: the nearest-rank
    percentiles 10, 25, 50, 75 and 90 of 1..10. *)
Lemma percentile_direct_example :
  percentile [10; 25; 50; 75; 90]%Z [7; 1; 5; 3; 9; 2; 8; 4; 10; 6]
  = [(10%Z, Some 1); (25%Z, Some 3); (50%Z, Some 5); (75%Z, Some 8);
     (90%Z, Some 9)].
Proof. reflexivity. Qed.

(** Past its pixel cap a region reduction fails. *)
Lemma reduceRegion_over_cap (A : Type) (reducer : list Q -> A)
  (geometry : list cell) (maxPixels : Z) (a : Image) :
  (maxPixels < Z.of_nat (length geometry))%Z ->
  reduceRegion reducer geometry maxPixels a = TooManyPixels.
Proof.
  intro H. unfold reduceRegion.
  apply Z.ltb_lt in H. rewrite H. reflexivity.
Qed.

(* ================================================================= *)
(** ** The scenarios in binary64 *)
(* ================================================================= *)

(** In binary64, with the weights of the script: the scores 2, 2, 3, 2, 4
    give the raw value 2.4, the maximum possible 5, the susceptibility
    0.48 and the class 3; five scores 1 give 0.2 and the class 1; five
    scores 5 give 1 and the class 5 (each decimal standing for the nearest
    binary64 value). *)
#[local] Set Warnings "-inexact-float".
Lemma binary64_scenarios :
  let w := Binary64.weights64 in
  (Binary64.weighted64 w 2 2 3 2 4 = 2.4
   /\ Binary64.maxPossible64 w = 5
   /\ Binary64.susceptibility64 w (Binary64.weighted64 w 2 2 3 2 4) = 0.48
   /\ Binary64.susClass64
        (Binary64.susceptibility64 w (Binary64.weighted64 w 2 2 3 2 4)) = 3
   /\ Binary64.susceptibility64 w (Binary64.weighted64 w 1 1 1 1 1) = 0.2
   /\ Binary64.susClass64
        (Binary64.susceptibility64 w (Binary64.weighted64 w 1 1 1 1 1)) = 1
   /\ Binary64.susceptibility64 w (Binary64.weighted64 w 5 5 5 5 5) = 1
   /\ Binary64.susClass64
        (Binary64.susceptibility64 w (Binary64.weighted64 w 5 5 5 5 5)) = 5
   /\ Binary64.susClass64 0.2 = 1
   /\ Binary64.susClass64 0.2000001 = 2)%float.
Proof. vm_compute. repeat split; reflexivity. Qed.

(* ================================================================= *)
(** ** Where-chains in general *)
(* ================================================================= *)

Lemma where_chain_snoc (init : Image) (rules : list rule) (r : rule)
  (p : cell) :
  where_chain init (rules ++ [r]) p
  = px_where (fst r p) (snd r) (where_chain init rules p).
Proof.
  unfold where_chain. rewrite fold_left_app. reflexivity.
Qed.

Lemma fired_snoc (rules : list rule) (r : rule) (p : cell) :
  fired (rules ++ [r]) p
  = (fired rules p + (if selects p r then 1 else 0))%nat.
Proof.
  unfold fired. rewrite filter_app, length_app. cbn [filter].
  destruct (selects p r); reflexivity.
Qed.

Lemma fired_zero (rules : list rule) (p : cell) (r : rule) :
  fired rules p = 0%nat -> In r rules -> selects p r = false.
Proof.
  unfold fired. intros F I.
  destruct (selects p r) eqn:E; [| reflexivity].
  assert (J : In r (filter (selects p) rules))
    by (apply filter_In; split; assumption).
  destruct (filter (selects p) rules); [destruct J | discriminate F].
Qed.

Lemma px_where_selected (r : rule) (p : cell) (i : Q) :
  selects p r = true -> px_where (fst r p) (snd r) (Some i) = Some (snd r).
Proof.
  unfold selects, px_where. destruct (fst r p) as [t |]; [| discriminate].
  intros ->. reflexivity.
Qed.

Lemma px_where_skipped (r : rule) (p : cell) (i : Q) :
  selects p r = false -> px_where (fst r p) (snd r) (Some i) = Some i.
Proof.
  unfold selects, px_where. destruct (fst r p) as [t |]; [| reflexivity].
  intros ->. reflexivity.
Qed.

(** When no rule selects the pixel the chain leaves its initial value. *)
Lemma chain_none_fired (rules : list rule) (init : Image) (p : cell)
  (v0 : Q) :
  init p = Some v0 -> fired rules p = 0%nat ->
  where_chain init rules p = Some v0.
Proof.
  intro H0. induction rules as [| r rules IH] using rev_ind; intro F.
  - exact H0.
  - rewrite fired_snoc in F. rewrite where_chain_snoc.
    destruct (selects p r) eqn:E; [lia |].
    rewrite IH by lia. apply px_where_skipped, E.
Qed.

(** When exactly one rule selects the pixel the chain gives that rule's
    value, wherever the rule stands in the chain. *)
Lemma chain_one_fired (rules : list rule) (init : Image) (p : cell)
  (v0 : Q) (r : rule) :
  init p = Some v0 -> fired rules p = 1%nat ->
  In r rules -> selects p r = true ->
  where_chain init rules p = Some (snd r).
Proof.
  intro H0. induction rules as [| x rules IH] using rev_ind;
    intros F I S; [destruct I |].
  rewrite fired_snoc in F. rewrite where_chain_snoc.
  destruct (where_chain_unmasked rules init p (ex_intro _ v0 H0)) as [i Hi].
  destruct (selects p x) eqn:E.
  - assert (F0 : fired rules p = 0%nat) by lia.
    apply in_app_or in I. destruct I as [I | [<- | []]].
    + rewrite (fired_zero rules p r F0 I) in S. discriminate S.
    + rewrite Hi. apply px_where_selected, E.
  - apply in_app_or in I. destruct I as [I | [<- | []]].
    + rewrite (IH ltac:(lia) I S). apply px_where_skipped, E.
    + congruence.
Qed.

Lemma fired_permutation (rules rules' : list rule) (p : cell) :
  Permutation rules rules' -> fired rules p = fired rules' p.
Proof.
  unfold fired. induction 1 as [| r l l' _ IH | r r' l | l l' l'' _ IH1 _ IH2];
    cbn [filter].
  - reflexivity.
  - destruct (selects p r); cbn [length]; congruence.
  - destruct (selects p r), (selects p r'); reflexivity.
  - congruence.
Qed.

Lemma fired_one_selected (rules : list rule) (p : cell) :
  fired rules p = 1%nat -> exists r, In r rules /\ selects p r = true.
Proof.
  unfold fired. intro F.
  destruct (filter (selects p) rules) as [| r l] eqn:E; [discriminate F |].
  exists r. apply filter_In. rewrite E. left. reflexivity.
Qed.

(** A chain in which at most one rule selects the pixel gives the same
    value in any order of its rules. *)
Lemma chain_order_irrelevant (rules rules' : list rule) (init : Image)
  (p : cell) :
  unmasked init p -> (fired rules p <= 1)%nat ->
  Permutation rules rules' ->
  where_chain init rules' p = where_chain init rules p.
Proof.
  intros [v0 H0] F P.
  pose proof (fired_permutation rules rules' p P) as FP.
  destruct (fired rules p) as [| [| n]] eqn:E; [| | lia].
  - rewrite (chain_none_fired rules init p v0 H0 E).
    apply chain_none_fired; [exact H0 | congruence].
  - destruct (fired_one_selected rules p E) as (r & I & S).
    rewrite (chain_one_fired rules init p v0 r H0 E I S).
    apply (chain_one_fired rules' init p v0 r H0); try congruence.
    apply (Permutation_in r P I).
Qed.

(* ================================================================= *)
(** ** Land cover: which class codes are scored *)
(* ================================================================= *)

Lemma fired_by_tests (rules : list rule) (p : cell) :
  fired rules p = length (filter (fun b : bool => b) (map (selects p) rules)).
Proof.
  unfold fired. induction rules as [| r rules IH]; cbn [filter map].
  - reflexivity.
  - destruct (selects p r); cbn [length]; congruence.
Qed.

Lemma lc_same_code (worldCover : Image) (p : cell) (x k : Q) :
  worldCover p = Some x -> x == k ->
  lcScore worldCover p = lcScore (constant k) p
  /\ fired (lcRules worldCover) p = fired (lcRules (constant k)) p.
Proof.
  intros H E.
  assert (R : forall c : Q, Qeq_bool x c = Qeq_bool k c)
    by (intro c; apply Qeqb_comp; [exact E | reflexivity]).
  rewrite !fired_by_tests.
  unfold lcScore, where_chain, lcRules, selects.
  cbn [fold_left map fst snd].
  unfold where_, eq_, constant; rewrite H; cbn [px_map px_where].
  rewrite !R. split; reflexivity.
Qed.

Lemma lc_unlisted_fired (worldCover : Image) (p : cell) (x : Q) :
  worldCover p = Some x ->
  (forall k : Q, In k lcCodes -> ~ x == k) ->
  fired (lcRules worldCover) p = 0%nat.
Proof.
  intros H N.
  assert (F : forall k : Q, In k lcCodes -> Qeq_bool x k = false).
  { intros k I. apply not_true_iff_false. intro E.
    apply Qeq_bool_iff in E. exact (N k I E). }
  unfold fired, lcRules, selects; cbn [filter fst].
  unfold eq_; rewrite H; cbn [px_map].
  rewrite !F by (unfold lcCodes; simpl; tauto).
  reflexivity.
Qed.

Lemma lc_listed (worldCover : Image) (p : cell) (x k : Q) :
  worldCover p = Some x -> In k lcCodes -> x == k ->
  ordinal (lcScore worldCover p)
  /\ fired (lcRules worldCover) p = 1%nat.
Proof.
  intros H I E.
  destruct (lc_same_code worldCover p x k H E) as [-> ->].
  unfold lcCodes in I. cbn [In] in I. unfold ordinal.
  repeat (destruct I as [<- | I]; [split; [cbn; tauto | reflexivity] |]).
  destruct I.
Qed.

Lemma lc_listed_dec (x : Q) :
  (exists k, In k lcCodes /\ x == k)
  \/ (forall k, In k lcCodes -> ~ x == k).
Proof.
  destruct (existsb (Qeq_bool x) lcCodes) eqn:E.
  - left. apply existsb_exists in E. destruct E as (k & I & E).
    exists k. split; [exact I | apply Qeq_bool_iff, E].
  - right. intros k I Q.
    assert (T : existsb (Qeq_bool x) lcCodes = true)
      by (apply existsb_exists; exists k; split;
          [exact I | apply Qeq_bool_iff, Q]).
    congruence.
Qed.

(** X1.  At an unmasked land-cover pixel at most one rule of the chain
    fires; the score is one of 1..5 exactly when the class code is one of
    the ten codes the chain tests, and it is the initial 0 for every other
    code. *)
Theorem lcScore_scored_iff_listed (worldCover : Image) (p : cell) (x : Q) :
  worldCover p = Some x ->
  (fired (lcRules worldCover) p <= 1)%nat
  /\ (ordinal (lcScore worldCover p)
      <-> exists k, In k lcCodes /\ x == k)
  /\ ((forall k, In k lcCodes -> ~ x == k) ->
      lcScore worldCover p = Some 0).
Proof.
  intro H.
  destruct (lc_listed_dec x) as [(k & I & E) | N].
  - destruct (lc_listed worldCover p x k H I E) as [O F].
    split; [lia | split; [| intro N; destruct (N k I E)]].
    split; [intros _; exists k; split; assumption | intros _; exact O].
  - pose proof (lcScore_unlisted worldCover p x H N) as Z0.
    split; [rewrite (lc_unlisted_fired worldCover p x H N); lia |].
    split; [| intros _; exact Z0].
    split.
    + intro O. apply ordinal_not_zero in O. congruence.
    + intros (k & I & E). destruct (N k I E).
Qed.

Lemma lcScore_scored_iff_listed_witness :
  constant 95 (0, 0)%Z = Some 95
  /\ lcScore (constant 95) (0, 0)%Z = Some 0
  /\ (fired (lcRules (constant 95)) (0, 0)%Z <= 1)%nat.
Proof.
  split; [reflexivity |].
  destruct (lcScore_scored_iff_listed (constant 95) (0, 0)%Z 95 eq_refl)
    as (F & _ & Z0).
  split; [| exact F].
  apply Z0. unfold lcCodes. intros k I E. cbn [In] in I.
  repeat (destruct I as [<- | I]; [discriminate E |]). destruct I.
Defined.

(* ================================================================= *)
(** ** The order of the rules *)
(* ================================================================= *)

Lemma scored_fired (rules : Image -> list rule)
  (a b c d v1 v2 v3 v4 v5 : Q) (img : Image) (p : cell) (x : Q) :
  scored rules a b c d v1 v2 v3 v4 v5 -> img p = Some x ->
  (fired (rules img) p <= 1)%nat.
Proof.
  intros S H. destruct (S img p x H) as (_ & F & _). lia.
Qed.

(** X2.  At an unmasked pixel each chain of the script (slope, roughness,
    land cover, distance to water, distance to road, class) gives the same
    value when its rules are applied in any other order. *)
Theorem chains_order_irrelevant (img : Image) (p : cell) (x : Q)
  (rules' : list rule) :
  img p = Some x ->
  (Permutation (slopeRules img) rules' ->
   where_chain (constant 0) rules' p = slopeScore img p)
  /\ (Permutation (roughRules img) rules' ->
      where_chain (constant 0) rules' p = roughScore img p)
  /\ (Permutation (lcRules img) rules' ->
      where_chain (constant 0) rules' p = lcScore img p)
  /\ (Permutation (distWaterRules img) rules' ->
      where_chain (constant 0) rules' p = distWaterScore img p)
  /\ (Permutation (distRoadRules img) rules' ->
      where_chain (constant 0) rules' p = distRoadScore img p)
  /\ (Permutation (susRules img) rules' ->
      where_chain (constant 0) rules' p = susClass img p).
Proof.
  intro H.
  assert (U : unmasked (constant 0) p) by (exists 0; reflexivity).
  repeat split; intro P;
    apply (chain_order_irrelevant _ rules' (constant 0) p U); try exact P.
  - exact (scored_fired _ _ _ _ _ _ _ _ _ _ img p x slope_scored H).
  - exact (scored_fired _ _ _ _ _ _ _ _ _ _ img p x rough_scored H).
  - destruct (lc_listed_dec x) as [(k & I & E) | N].
    + destruct (lc_listed img p x k H I E) as [_ F]. lia.
    + rewrite (lc_unlisted_fired img p x H N). lia.
  - exact (scored_fired _ _ _ _ _ _ _ _ _ _ img p x distWater_scored H).
  - exact (scored_fired _ _ _ _ _ _ _ _ _ _ img p x distRoad_scored H).
  - exact (scored_fired _ _ _ _ _ _ _ _ _ _ img p x sus_scored H).
Qed.

Lemma chains_order_irrelevant_witness :
  constant 20 (0, 0)%Z = Some 20
  /\ where_chain (constant 0) (rev (lcRules (constant 20))) (0, 0)%Z
     = lcScore (constant 20) (0, 0)%Z.
Proof.
  split; [reflexivity |].
  destruct (chains_order_irrelevant (constant 20) (0, 0)%Z 20
              (rev (lcRules (constant 20))) eq_refl)
    as (_ & _ & L & _).
  apply L, Permutation_rev.
Defined.

(* ================================================================= *)
(** ** Monotonicity *)
(* ================================================================= *)

Section BandOrder.

Variables a b c d : Q.
Variables v1 v2 v3 v4 v5 : Q.
Hypothesis Hab : a < b.
Hypothesis Hbc : b < c.
Hypothesis Hcd : c < d.

Ltac compare_bands x y :=
  unfold band;
  destruct (Qle_bool x a) eqn:Xa; destruct (Qle_bool x b) eqn:Xb;
  destruct (Qle_bool x c) eqn:Xc; destruct (Qle_bool x d) eqn:Xd;
  destruct (Qle_bool y a) eqn:Ya; destruct (Qle_bool y b) eqn:Yb;
  destruct (Qle_bool y c) eqn:Yc; destruct (Qle_bool y d) eqn:Yd;
  reflect_Qle; lra.

(** Increasing values make the lookup non-decreasing. *)
Lemma band_monotone (x y : Q) :
  v1 <= v2 -> v2 <= v3 -> v3 <= v4 -> v4 <= v5 -> x <= y ->
  band a b c d v1 v2 v3 v4 v5 x <= band a b c d v1 v2 v3 v4 v5 y.
Proof using Hab Hbc Hcd.
  intros H12 H23 H34 H45 Hxy. compare_bands x y.
Qed.

(** Decreasing values make it non-increasing. *)
Lemma band_antitone (x y : Q) :
  v2 <= v1 -> v3 <= v2 -> v4 <= v3 -> v5 <= v4 -> x <= y ->
  band a b c d v1 v2 v3 v4 v5 y <= band a b c d v1 v2 v3 v4 v5 x.
Proof using Hab Hbc Hcd.
  intros H12 H23 H34 H45 Hxy. compare_bands x y.
Qed.

End BandOrder.

Lemma scored_monotone (rules : Image -> list rule) (a b c d : Q)
  (img img' : Image) (p : cell) (x y : Q) :
  scored rules a b c d 1 2 3 4 5 -> a < b -> b < c -> c < d ->
  img p = Some x -> img' p = Some y -> x <= y ->
  px_le (where_chain (constant 0) (rules img) p)
    (where_chain (constant 0) (rules img') p).
Proof.
  intros S Hab Hbc Hcd H H' L.
  destruct (S img p x H) as (E & _). destruct (S img' p y H') as (E' & _).
  do 2 eexists. split; [exact E | split; [exact E' |]].
  apply band_monotone; (assumption || lra).
Qed.

Lemma scored_antitone (rules : Image -> list rule) (a b c d : Q)
  (img img' : Image) (p : cell) (x y : Q) :
  scored rules a b c d 5 4 3 2 1 -> a < b -> b < c -> c < d ->
  img p = Some x -> img' p = Some y -> x <= y ->
  px_le (where_chain (constant 0) (rules img') p)
    (where_chain (constant 0) (rules img) p).
Proof.
  intros S Hab Hbc Hcd H H' L.
  destruct (S img p x H) as (E & _). destruct (S img' p y H') as (E' & _).
  do 2 eexists. split; [exact E' | split; [exact E |]].
  apply band_antitone; (assumption || lra).
Qed.

(** X3.  The slope and roughness scores never decrease when the slope or
    the roughness increases. *)
Theorem terrain_scores_monotone (img img' : Image) (p : cell) (x y : Q) :
  img p = Some x -> img' p = Some y -> x <= y ->
  px_le (slopeScore img p) (slopeScore img' p)
  /\ px_le (roughScore img p) (roughScore img' p).
Proof.
  intros H H' L. split.
  - apply (scored_monotone slopeRules 5 15 25 35 img img' p x y);
      (assumption || lra || apply slope_scored).
  - apply (scored_monotone roughRules 1 3 6 12 img img' p x y);
      (assumption || lra || apply rough_scored).
Qed.

Lemma terrain_scores_monotone_witness :
  constant 10 (0, 0)%Z = Some 10 /\ constant 30 (0, 0)%Z = Some 30
  /\ px_le (slopeScore (constant 10) (0, 0)%Z)
       (slopeScore (constant 30) (0, 0)%Z).
Proof.
  split; [reflexivity | split; [reflexivity |]].
  apply (terrain_scores_monotone (constant 10) (constant 30) (0, 0)%Z
           10 30); [reflexivity | reflexivity | lra].
Defined.

(** X4.  The two distance scores never increase with the distance: a cell
    nearer to water, or to a road, is scored at least as high. *)
Theorem distance_scores_antitone (img img' : Image) (p : cell) (x y : Q) :
  img p = Some x -> img' p = Some y -> x <= y ->
  px_le (distWaterScore img' p) (distWaterScore img p)
  /\ px_le (distRoadScore img' p) (distRoadScore img p).
Proof.
  intros H H' L. split.
  - apply (scored_antitone distWaterRules 50 100 250 500 img img' p x y);
      (assumption || lra || apply distWater_scored).
  - apply (scored_antitone distRoadRules 50 100 250 500 img img' p x y);
      (assumption || lra || apply distRoad_scored).
Qed.

Lemma distance_scores_antitone_witness :
  constant 60 (0, 0)%Z = Some 60 /\ constant 300 (0, 0)%Z = Some 300
  /\ px_le (distWaterScore (constant 300) (0, 0)%Z)
       (distWaterScore (constant 60) (0, 0)%Z).
Proof.
  split; [reflexivity | split; [reflexivity |]].
  apply (distance_scores_antitone (constant 60) (constant 300) (0, 0)%Z
           60 300); [reflexivity | reflexivity | lra].
Defined.









(* ================================================================= *)
(** ** The values a chain can give *)
(* ================================================================= *)

(** A chain gives its initial value or the value of one of its rules. *)
Lemma chain_value_in (rules : list rule) :
  forall (init : Image) (p : cell) (v0 : Q),
    init p = Some v0 ->
    exists v : Q,
      where_chain init rules p = Some v
      /\ (v = v0 \/ In v (map snd rules)).
Proof.
  unfold where_chain.
  induction rules as [| r rules IH]; intros init p v0 H0; cbn [fold_left].
  - exists v0. split; [exact H0 | left; reflexivity].
  - assert (S : where_ (fst r) (snd r) init p = Some v0
                \/ where_ (fst r) (snd r) init p = Some (snd r)).
    { unfold where_. rewrite H0. cbn [px_where].
      destruct (fst r p) as [t |]; [destruct (nonzero t) |]; tauto. }
    destruct S as [S | S]; destruct (IH _ p _ S) as (v & E & [-> | I]);
      eexists; (split; [exact E |]); cbn [map In]; auto.
Qed.

Lemma chain_value_range (rules : list rule) (p : cell) :
  Forall (fun r => 0 <= snd r <= 5) rules ->
  exists v : Q,
    where_chain (constant 0) rules p = Some v /\ 0 <= v <= 5.
Proof.
  intro F.
  destruct (chain_value_in rules (constant 0) p 0 eq_refl)
    as (v & E & [-> | I]).
  - exists 0. split; [exact E | lra].
  - exists v. split; [exact E |].
    apply in_map_iff in I. destruct I as (r & <- & I).
    rewrite Forall_forall in F. exact (F r I).
Qed.

Ltac values_in_range :=
  repeat (apply Forall_cons; [cbn [snd]; lra |]); apply Forall_nil.

Lemma script_scores_range (slope roughness worldCover dtWater dtRoad : Image)
  (p : cell) :
  exists s1 s2 s3 s4 s5 : Q,
    scores_at (slopeScore slope) (roughScore roughness) (lcScore worldCover)
      (distWaterScore dtWater) (distRoadScore dtRoad) p s1 s2 s3 s4 s5
    /\ 0 <= s1 <= 5 /\ 0 <= s2 <= 5 /\ 0 <= s3 <= 5 /\ 0 <= s4 <= 5
    /\ 0 <= s5 <= 5.
Proof.
  destruct (chain_value_range (slopeRules slope) p) as (s1 & E1 & B1);
    [unfold slopeRules; values_in_range |].
  destruct (chain_value_range (roughRules roughness) p) as (s2 & E2 & B2);
    [unfold roughRules; values_in_range |].
  destruct (chain_value_range (lcRules worldCover) p) as (s3 & E3 & B3);
    [unfold lcRules; values_in_range |].
  destruct (chain_value_range (distWaterRules dtWater) p) as (s4 & E4 & B4);
    [unfold distWaterRules; values_in_range |].
  destruct (chain_value_range (distRoadRules dtRoad) p) as (s5 & E5 & B5);
    [unfold distRoadRules; values_in_range |].
  exists s1, s2, s3, s4, s5. repeat split; (assumption || tauto).
Qed.

(* ================================================================= *)
(** ** Locality *)
(* ================================================================= *)

(** A score at a cell is decided by the predictor's pixel at that cell. *)
Lemma scores_local (img img' : Image) (p : cell) :
  img' p = img p ->
  slopeScore img' p = slopeScore img p
  /\ roughScore img' p = roughScore img p
  /\ lcScore img' p = lcScore img p
  /\ distWaterScore img' p = distWaterScore img p
  /\ distRoadScore img' p = distRoadScore img p.
Proof.
  intro H.
  unfold slopeScore, roughScore, lcScore, distWaterScore, distRoadScore,
    where_chain, slopeRules, roughRules, lcRules, distWaterRules,
    distRoadRules.
  cbn [fold_left fst snd].
  unfold where_, and_, lte, gt, eq_, constant. rewrite H.
  repeat split; reflexivity.
Qed.

Lemma term_unchanged (wi s s' : Q) :
  wi == 0 \/ s' = s -> s' * wi == s * wi.
Proof.
  intros [E | ->]; [rewrite E; ring | reflexivity].
Qed.

(** X11.  The susceptibility of a cell is decided by the pixels of that
    cell in the layers whose weight is not zero: changing a predictor
    anywhere else, or a predictor of weight zero, does not change it. *)
Theorem overlay_local (w : W.t)
  (slope roughness worldCover dtWater dtRoad
   slope' roughness' worldCover' dtWater' dtRoad' : Image) (p : cell) :
  (W.slope w == 0 \/ slope' p = slope p) ->
  (W.roughness w == 0 \/ roughness' p = roughness p) ->
  (W.landcover w == 0 \/ worldCover' p = worldCover p) ->
  (W.distWater w == 0 \/ dtWater' p = dtWater p) ->
  (W.distRoad w == 0 \/ dtRoad' p = dtRoad p) ->
  exists s s' : Q,
    overlay w slope roughness worldCover dtWater dtRoad p = Some s
    /\ overlay w slope' roughness' worldCover' dtWater' dtRoad' p = Some s'
    /\ s' == s.
Proof.
  intros H1 H2 H3 H4 H5.
  destruct (script_scores_range slope roughness worldCover dtWater dtRoad p)
    as (s1 & s2 & s3 & s4 & s5 & HS & _).
  destruct (script_scores_range slope' roughness' worldCover' dtWater'
              dtRoad' p)
    as (t1 & t2 & t3 & t4 & t5 & HT & _).
  do 2 eexists.
  split; [unfold overlay; apply susceptibility_at, weighted_at, HS |].
  split; [unfold overlay; apply susceptibility_at, weighted_at, HT |].
  destruct HS as (A1 & A2 & A3 & A4 & A5).
  destruct HT as (B1 & B2 & B3 & B4 & B5).
  assert (T1 : t1 * W.slope w == s1 * W.slope w).
  { apply term_unchanged. destruct H1 as [E | E]; [left; exact E | right].
    destruct (scores_local _ _ p E) as (X & _). congruence. }
  assert (T2 : t2 * W.roughness w == s2 * W.roughness w).
  { apply term_unchanged. destruct H2 as [E | E]; [left; exact E | right].
    destruct (scores_local _ _ p E) as (_ & X & _). congruence. }
  assert (T3 : t3 * W.landcover w == s3 * W.landcover w).
  { apply term_unchanged. destruct H3 as [E | E]; [left; exact E | right].
    destruct (scores_local _ _ p E) as (_ & _ & X & _). congruence. }
  assert (T4 : t4 * W.distWater w == s4 * W.distWater w).
  { apply term_unchanged. destruct H4 as [E | E]; [left; exact E | right].
    destruct (scores_local _ _ p E) as (_ & _ & _ & X & _). congruence. }
  assert (T5 : t5 * W.distRoad w == s5 * W.distRoad w).
  { apply term_unchanged. destruct H5 as [E | E]; [left; exact E | right].
    destruct (scores_local _ _ p E) as (_ & _ & _ & _ & X). congruence. }
  rewrite !q_divide_div. unfold raw_sum.
  rewrite T1, T2, T3, T4, T5. reflexivity.
Qed.

Lemma overlay_local_witness :
  let w := W.mk 0 0.5 0.5 0 0 in
  exists s s' : Q,
    overlay w (constant 10) (constant 2) (constant 20) (constant 300)
      (constant 60) (0, 0)%Z = Some s
    /\ overlay w (constant 80) (constant 2) (constant 20) (constant 0)
         (constant 9000) (0, 0)%Z = Some s'
    /\ s' == s.
Proof.
  intro w.
  apply (overlay_local w); cbn;
    ((left; reflexivity) || (right; reflexivity)).
Defined.

(* ================================================================= *)
(** ** The distance layers *)
(* ================================================================= *)

Lemma sq_euclidean_zero (d : Z * Z) : sq_euclidean d = 0%Z -> d = (0, 0)%Z.
Proof.
  destruct d as [dx dy]. unfold sq_euclidean; cbn [fst snd]. intro E.
  assert (dx = 0 /\ dy = 0)%Z as [-> ->] by nia. reflexivity.
Qed.

(** With a feature in the window, the transform holds the least squared
    distance to a feature of the window. *)
Lemma transform_in_window (n : Z) (a : Image) (p : cell) (d : Z * Z) :
  (0 <= n)%Z -> In d (offsets n) -> present a (shift p d) = true ->
  exists m : Z,
    nearest_sq n a p = Some m
    /\ (0 <= m <= sq_euclidean d)%Z
    /\ (exists d0, In d0 (offsets n) /\ present a (shift p d0) = true
                   /\ sq_euclidean d0 = m)
    /\ (m = 0%Z <-> present a p = true).
Proof.
  intros Hn I P.
  destruct (nearest_sq n a p) as [m |] eqn:E.
  - destruct (nearest_sq_least n a p m E) as ((d0 & I0 & P0 & S0) & Min).
    exists m. split; [reflexivity |].
    split; [split; [rewrite <- S0; apply sq_euclidean_nonneg
                   | exact (Min d I P)] |].
    split; [exists d0; tauto |].
    split.
    + intros ->. apply sq_euclidean_zero in S0. subst d0.
      rewrite shift_zero in P0. exact P0.
    + intro Pp.
      assert (I00 : In (0, 0)%Z (offsets n)) by (apply in_offsets; cbn; lia).
      specialize (Min (0, 0)%Z I00). rewrite shift_zero in Min.
      specialize (Min Pp). cbn in Min.
      pose proof (sq_euclidean_nonneg d0). lia.
  - rewrite (nearest_sq_none n a p E d I) in P. discriminate P.
Qed.

(** X12.  At a cell with water (a road) within 30 cells east-west and
    north-south, the distance-to-water (distance-to-road) layer holds 30
    times the least squared distance, in cells, to such a water (road)
    cell; it is 0 exactly on the water (road) cells themselves. *)
Theorem distance_layers_value (beyond : pixel) (gsw : Image)
  (roads : cell -> bool) (p : cell) (d : Z * Z) :
  (- 30 <= fst d <= 30)%Z -> (- 30 <= snd d <= 30)%Z ->
  (present (waterMask gsw) (shift p d) = true ->
   exists m : Z,
     dtWater beyond gsw p = Some (inject_Z m * 30)
     /\ (0 <= m <= sq_euclidean d)%Z
     /\ (exists d0, present (waterMask gsw) (shift p d0) = true
                    /\ sq_euclidean d0 = m)
     /\ (m = 0%Z <-> present (waterMask gsw) p = true))
  /\ (roads (shift p d) = true ->
      exists m : Z,
        dtRoad beyond roads p = Some (inject_Z m * 30)
        /\ (0 <= m <= sq_euclidean d)%Z
        /\ (exists d0, roads (shift p d0) = true /\ sq_euclidean d0 = m)
        /\ (m = 0%Z <-> roads p = true)).
Proof.
  intros Bx By.
  assert (I : In d (offsets 30)) by (apply in_offsets; [lia | tauto]).
  split; intro P.
  - rewrite <- waterBinary_present in P.
    destruct (transform_in_window 30 _ p d ltac:(lia) I P)
      as (m & E & B & (d0 & _ & P0 & S0) & Z0).
    exists m. split; [apply dtWater_value, E |].
    split; [exact B |].
    rewrite waterBinary_present in P0, Z0.
    split; [exists d0; tauto | exact Z0].
  - rewrite <- roadsRaster_present in P.
    destruct (transform_in_window 30 _ p d ltac:(lia) I P)
      as (m & E & B & (d0 & _ & P0 & S0) & Z0).
    exists m. split; [apply dtRoad_value, E |].
    split; [exact B |].
    rewrite roadsRaster_present in P0, Z0.
    split; [exists d0; tauto | exact Z0].
Qed.

Lemma distance_layers_value_witness :
  present (waterMask water_two_east) (shift (0, 0)%Z (2, 0)%Z) = true
  /\ exists m : Z,
       dtWater None water_two_east (0, 0)%Z = Some (inject_Z m * 30)
       /\ (0 <= m <= 4)%Z.
Proof.
  split; [reflexivity |].
  destruct (distance_layers_value None water_two_east (at_cell 3 4)
              (0, 0)%Z (2, 0)%Z) as [Wt _]; [cbn; lia | cbn; lia |].
  destruct (Wt eq_refl) as (m & E & B & _).
  exists m. split; [exact E | exact B].
Defined.

Lemma metres_threshold (m k c : Z) :
  ((30 * m <= k)%Z <-> (m <= c)%Z) ->
  Qle_bool (inject_Z m * 30) (inject_Z k) = (m <=? c)%Z.
Proof.
  intro T. destruct (Z.leb_spec m c) as [L | L].
  - apply Qle_bool_iff. unfold Qle; cbn. lia.
  - apply Qle_bool_false. unfold Qlt; cbn. lia.
Qed.

Lemma band_of_sq (m : Z) :
  band 50 100 250 500 5 4 3 2 1 (inject_Z m * 30) = score_of_sq m.
Proof.
  unfold band, score_of_sq.
  change 50 with (inject_Z 50). change 100 with (inject_Z 100).
  change 250 with (inject_Z 250). change 500 with (inject_Z 500).
  rewrite (metres_threshold m 50 1) by lia.
  rewrite (metres_threshold m 100 3) by lia.
  rewrite (metres_threshold m 250 8) by lia.
  rewrite (metres_threshold m 500 16) by lia.
  reflexivity.
Qed.

(** X13.  The distance scores in terms of the cells: with the nearest
    water (road) of the window at the squared distance m, in cells, the
    score is 5 for m <= 1, 4 for m <= 3, 3 for m <= 8, 2 for m <= 16 and 1
    beyond; so it is 1 from the squared distance 17 on, hence for anything
    more than 4 cells (120 m) away. *)
Theorem distance_score_of_cells (beyond : pixel) (gsw : Image)
  (roads : cell -> bool) (p : cell) (m : Z) :
  (nearest_sq 30 (waterBinary gsw) p = Some m ->
   distWaterScore (dtWater beyond gsw) p = Some (score_of_sq m))
  /\ (nearest_sq 30 (roadsRaster roads) p = Some m ->
      distRoadScore (dtRoad beyond roads) p = Some (score_of_sq m))
  /\ ((17 <= m)%Z -> score_of_sq m = 1).
Proof.
  split; [| split].
  - intro E. pose proof (dtWater_value beyond gsw p m E) as D.
    destruct (distWater_scored _ p _ D) as (V & _).
    unfold distWaterScore. rewrite V, band_of_sq. reflexivity.
  - intro E. pose proof (dtRoad_value beyond roads p m E) as D.
    destruct (distRoad_scored _ p _ D) as (V & _).
    unfold distRoadScore. rewrite V, band_of_sq. reflexivity.
  - intro L. unfold score_of_sq.
    destruct (Z.leb_spec m 1); [lia |].
    destruct (Z.leb_spec m 3); [lia |].
    destruct (Z.leb_spec m 8); [lia |].
    destruct (Z.leb_spec m 16); [lia | reflexivity].
Qed.

Lemma distance_score_of_cells_witness :
  nearest_sq 30 (roadsRaster (at_cell 3 4)) (0, 0)%Z = Some 25%Z
  /\ distRoadScore (dtRoad None (at_cell 3 4)) (0, 0)%Z = Some 1.
Proof.
  assert (E : nearest_sq 30 (roadsRaster (at_cell 3 4)) (0, 0)%Z
              = Some 25%Z) by (vm_compute; reflexivity).
  split; [exact E |].
  destruct (distance_score_of_cells None water_two_east (at_cell 3 4)
              (0, 0)%Z 25) as (_ & R & _).
  exact (R E).
Defined.

(* ================================================================= *)
(** ** Comparisons of binary64 numbers *)
(* ================================================================= *)

(** The comparisons of the class chain are read through the
    specification of binary64 comparison on [spec_float]. *)

Lemma SFcompare_antisym (x y : spec_float) :
  SFcompare y x = option_map CompOpp (SFcompare x y).
Proof.
  destruct x as [sx | sx | | sx mx ex], y as [sy | sy | | sy my ey];
    cbn; try reflexivity;
    try (destruct sx; reflexivity); try (destruct sy; reflexivity);
    try (destruct sx, sy; reflexivity).
  destruct sx, sy; cbn; try reflexivity;
    rewrite (Z.compare_antisym ex ey);
    destruct (ex ?= ey)%Z; cbn; try reflexivity;
    rewrite (Pos.compare_cont_antisym); cbn; try reflexivity.
  rewrite CompOpp_involutive. reflexivity.
Qed.

Lemma SFcompare_refl (x : spec_float) :
  x <> S754_nan -> SFcompare x x = Some Eq.
Proof.
  destruct x as [sx | sx | | sx mx ex]; cbn; intro N;
    try reflexivity; try congruence; try (destruct sx; reflexivity).
  change (Pos.compare_cont Eq mx mx) with (Pos.compare mx mx).
  rewrite Z.compare_refl, Pos.compare_refl. destruct sx; reflexivity.
Qed.

(** Of two numbers, either the first is at most the second or the second
    is below the first, never both. *)
Lemma SFltb_negb_SFleb (x y : spec_float) :
  x <> S754_nan -> y <> S754_nan -> SFltb y x = negb (SFleb x y).
Proof.
  intros Hx Hy. unfold SFltb, SFleb. rewrite (SFcompare_antisym x y).
  destruct (SFcompare x y) as [[| |] |] eqn:E; cbn; try reflexivity.
  destruct x, y; cbn in E; congruence.
Qed.

(** Being at most a positive number, one is at most a greater one. *)
Lemma SFleb_finite_mono (x : spec_float) (m1 m2 : positive) (e1 e2 : Z) :
  (e1 < e2)%Z \/ (e1 = e2 /\ (m1 <= m2)%positive) ->
  SFleb x (S754_finite false m1 e1) = true ->
  SFleb x (S754_finite false m2 e2) = true.
Proof.
  intro H. unfold SFleb.
  destruct x as [sx | sx | | sx mx ex]; cbn;
    try (intros; reflexivity || assumption);
    try (destruct sx; intros; reflexivity || assumption).
  destruct sx; [reflexivity |].
  change (Pos.compare_cont Eq mx m1) with (Pos.compare mx m1).
  change (Pos.compare_cont Eq mx m2) with (Pos.compare mx m2).
  destruct (Z.compare_spec ex e1), (Z.compare_spec ex e2);
    destruct (Pos.compare_spec mx m1), (Pos.compare_spec mx m2);
    try reflexivity; try discriminate; intros _; exfalso; lia.
Qed.

Lemma is_nan_spec (x : float) :
  is_nan x = true <-> Prim2SF x = S754_nan.
Proof.
  unfold is_nan. rewrite FloatAxioms.eqb_spec. unfold SFeqb. split.
  - intro H. destruct (Prim2SF x) eqn:E; try reflexivity;
      rewrite SFcompare_refl in H by discriminate; discriminate H.
  - intros ->. reflexivity.
Qed.

Lemma not_nan_spec (x : float) :
  is_nan x = false <-> Prim2SF x <> S754_nan.
Proof.
  rewrite <- is_nan_spec. destruct (is_nan x); split; congruence.
Qed.

(** Against a breakpoint [k], a number that is not NaN is above [k]
    exactly when it is not at most [k]. *)
Lemma ltb_negb_leb (k x : float) :
  is_nan k = false -> is_nan x = false ->
  (k <? x)%float = negb (x <=? k)%float.
Proof.
  intros Hk Hx. rewrite ltb_spec, leb_spec.
  apply SFltb_negb_SFleb; apply not_nan_spec; assumption.
Qed.

(** NaN passes no comparison. *)
Lemma nan_compares_false (k x : float) :
  is_nan x = true ->
  (x <=? k)%float = false /\ (k <? x)%float = false.
Proof.
  intro H. apply is_nan_spec in H.
  rewrite ltb_spec, leb_spec, H. unfold SFleb, SFltb.
  split; [reflexivity |]. destruct (Prim2SF k); reflexivity.
Qed.

#[local] Set Warnings "-inexact-float".

(** The breakpoints of the class chain are in increasing order. *)
Lemma leb_breakpoints (x : float) :
  (((x <=? 0.2) = true -> (x <=? 0.4) = true)
   /\ ((x <=? 0.4) = true -> (x <=? 0.6) = true)
   /\ ((x <=? 0.6) = true -> (x <=? 0.8) = true))%float.
Proof.
  rewrite !leb_spec.
  change (Prim2SF 0.2) with (S754_finite false 7205759403792794 (-55)).
  change (Prim2SF 0.4) with (S754_finite false 7205759403792794 (-54)).
  change (Prim2SF 0.6) with (S754_finite false 5404319552844595 (-53)).
  change (Prim2SF 0.8) with (S754_finite false 7205759403792794 (-53)).
  repeat split; apply SFleb_finite_mono; lia.
Qed.

(* ================================================================= *)
(** ** The class chain in binary64 (claim C3) *)
(* ================================================================= *)

(** On a number the chain is the interval lookup, and one test holds. *)
Lemma susClass64_lookup (s : float) :
  is_nan s = false ->
  (Binary64.fired64 s = 1%nat
   /\ Binary64.susClass64 s
      = if s <=? 0.2 then 1
        else if s <=? 0.4 then 2
        else if s <=? 0.6 then 3
        else if s <=? 0.8 then 4
        else 5)%float.
Proof.
  intro N.
  destruct (leb_breakpoints s) as (M12 & M23 & M34).
  unfold Binary64.fired64, Binary64.susTests64, Binary64.susClass64,
    Binary64.where64.
  rewrite (ltb_negb_leb 0.2 s), (ltb_negb_leb 0.4 s), (ltb_negb_leb 0.6 s),
    (ltb_negb_leb 0.8 s) by (reflexivity || exact N).
  destruct (s <=? 0.2)%float; destruct (s <=? 0.4)%float;
    destruct (s <=? 0.6)%float; destruct (s <=? 0.8)%float;
    cbn; try (split; reflexivity);
    try (discriminate (M12 eq_refl)); try (discriminate (M23 eq_refl));
    discriminate (M34 eq_refl).
Qed.

(** On NaN no test holds and the chain keeps its initial 0. *)
Lemma susClass64_nan (s : float) :
  is_nan s = true ->
  Binary64.fired64 s = 0%nat /\ Binary64.susClass64 s = 0%float.
Proof.
  intro N.
  unfold Binary64.fired64, Binary64.susTests64, Binary64.susClass64,
    Binary64.where64.
  destruct (nan_compares_false 0.2 s N) as [-> ->].
  destruct (nan_compares_false 0.4 s N) as [-> ->].
  destruct (nan_compares_false 0.6 s N) as [-> ->].
  destruct (nan_compares_false 0.8 s N) as [-> ->].
  split; reflexivity.
Qed.

Lemma susClass64_ordinal (s : float) :
  is_nan s = false -> In (Binary64.susClass64 s) Binary64.ordinal64.
Proof.
  intro N. destruct (susClass64_lookup s N) as [_ ->].
  unfold Binary64.ordinal64.
  destruct (s <=? 0.2)%float; [cbn; tauto |].
  destruct (s <=? 0.4)%float; [cbn; tauto |].
  destruct (s <=? 0.6)%float; [cbn; tauto |].
  destruct (s <=? 0.8)%float; cbn; tauto.
Qed.

(** A value of [0,1], as any value at least 0, is a number. *)
Lemma at_least_zero_is_number (s : float) :
  (0 <=? s)%float = true -> is_nan s = false.
Proof.
  intro H. destruct (is_nan s) eqn:N; [| reflexivity].
  apply is_nan_spec in N. rewrite leb_spec, N in H.
  discriminate H.
Qed.




(* ================================================================= *)
(** ** The overlay in binary64 (claims C1, C10) *)
(* ================================================================= *)

Lemma for_scores_spec (l : list float)
  (P : float -> float -> float -> float -> float -> bool) :
  Binary64.for_scores l P = true ->
  forall a b c d e : float,
    In a l -> In b l -> In c l -> In d l -> In e l -> P a b c d e = true.
Proof.
  unfold Binary64.for_scores. intros H a b c d e Ia Ib Ic Id Ie.
  rewrite forallb_forall in H. specialize (H a Ia).
  rewrite forallb_forall in H. specialize (H b Ib).
  rewrite forallb_forall in H. specialize (H c Ic).
  rewrite forallb_forall in H. specialize (H d Id).
  rewrite forallb_forall in H. exact (H e Ie).
Qed.

Lemma ordinal64_is_score (a : float) :
  In a Binary64.ordinal64 -> In a Binary64.scores64.
Proof. intro I. right. exact I. Qed.

Lemma ordinal64_not_zero (f : float) :
  In f Binary64.ordinal64 -> f <> 0%float.
Proof.
  intros I E. subst f. cbn in I.
  repeat (destruct I as [I | I];
          [apply (f_equal (fun f => PrimFloat.eqb f 0)) in I;
           vm_compute in I; discriminate I |]).
  destruct I.
Qed.

#[local] Set Warnings "-inexact-float".

(** With the weights of the script, whatever the five scores among 0..5:
    the binary64 susceptibility is within [0,1], and at least 0.2 when no
    score is 0. *)
Lemma shipped_weights_bounds (a b c d e : float) :
  In a Binary64.scores64 -> In b Binary64.scores64 ->
  In c Binary64.scores64 -> In d Binary64.scores64 ->
  In e Binary64.scores64 ->
  let s := Binary64.overlay64 Binary64.weights64 a b c d e in
  ((0 <=? s) = true /\ (s <=? 1) = true /\ is_nan s = false
   /\ (In a Binary64.ordinal64 -> In b Binary64.ordinal64 ->
       In c Binary64.ordinal64 -> In d Binary64.ordinal64 ->
       In e Binary64.ordinal64 -> (0.2 <=? s) = true))%float.
Proof.
  intros Ia Ib Ic Id Ie s.
  assert (A : Binary64.for_scores Binary64.scores64
                (fun a b c d e =>
                   let s := Binary64.overlay64 Binary64.weights64 a b c d e
                   in ((0 <=? s) && (s <=? 1) && negb (is_nan s))%float)
              = true) by (vm_compute; reflexivity).
  assert (B : Binary64.for_scores Binary64.ordinal64
                (fun a b c d e =>
                   (0.2 <=? Binary64.overlay64 Binary64.weights64 a b c d e)
                   %float) = true) by (vm_compute; reflexivity).
  pose proof (for_scores_spec _ _ A a b c d e Ia Ib Ic Id Ie) as HA.
  cbv beta zeta in HA. fold s in HA.
  apply andb_prop in HA. destruct HA as [HA Hn].
  apply andb_prop in HA. destruct HA as [H0 H1].
  apply negb_true_iff in Hn.
  repeat split; try assumption.
  intros Oa Ob Oc Od Oe.
  exact (for_scores_spec _ _ B a b c d e Oa Ob Oc Od Oe).
Qed.





(** The claim C10 fails in binary64: with the non-negative weights 0.05,
    0.05, 0.05, 0.05, 0.15, of positive sum, and five scores 1 the
    script's susceptibility is below 0.2; and the weights of the script
    with the slope weight negated, of positive sum, give a susceptibility
    above 1 to the scores 2, 2, 3, 5, 4. *)
Lemma susceptibility64_below_one_fifth :
  (Binary64.nonneg64 Binary64.road_heavy64 = true
   /\ (0 <? Binary64.sum64 Binary64.road_heavy64) = true
   /\ In 1 Binary64.ordinal64
   /\ (Binary64.overlay64 Binary64.road_heavy64 1 1 1 1 1 <? 0.2) = true
   /\ (0.2 <=? Binary64.overlay64 Binary64.road_heavy64 1 1 1 1 1)
      = false
   /\ (0 <? Binary64.sum64 Binary64.negative_weights64) = true
   /\ (1 <? Binary64.overlay64 Binary64.negative_weights64 2 2 3 5 4)
      = true)%float.
Proof.
  split; [reflexivity | split; [vm_compute; reflexivity |]].
  split; [cbn; tauto |].
  repeat split; vm_compute; reflexivity.
Qed.

(** C10, as the script has it.  At a pixel whose five scores are each one
    of 1..5, for non-negative weights with a strictly positive sum, the
    exact value of the susceptibility is at least 1/5 and at most 1; the
    binary64 value the script computes can fall below 0.2 by rounding.
    With the weights of the script it is at least 0.2 and at most 1 for
    every five scores.  The class chain gives one of the classes 1..5 to
    every susceptibility that is a number: the 0 it starts from is
    emitted for NaN only. *)
Theorem susceptibility_one_fifth_up_to_rounding (w : W.t)
  (S R L DW DR : Image) (p : cell) (s1 s2 s3 s4 s5 : Q)
  (a b c d e x : float) :
  scores_at S R L DW DR p s1 s2 s3 s4 s5 ->
  score_value s1 -> score_value s2 -> score_value s3 ->
  score_value s4 -> score_value s5 ->
  nonneg w ->
  0 < W.sum w ->
  In a Binary64.ordinal64 -> In b Binary64.ordinal64 ->
  In c Binary64.ordinal64 -> In d Binary64.ordinal64 ->
  In e Binary64.ordinal64 ->
  is_nan x = false ->
  (exists sus : Q,
     susceptibility w (weighted w S R L DW DR) p = Some sus
     /\ 1 # 5 <= sus <= 1)
  /\ ((0.2 <=? Binary64.overlay64 Binary64.weights64 a b c d e) = true
      /\ (Binary64.overlay64 Binary64.weights64 a b c d e <=? 1) = true
      /\ In (Binary64.susClass64
               (Binary64.overlay64 Binary64.weights64 a b c d e))
           Binary64.ordinal64)%float
  /\ In (Binary64.susClass64 x) Binary64.ordinal64
  /\ Binary64.susClass64 x <> 0%float.
Proof.
  intros HS V1 V2 V3 V4 V5 HW HP Ia Ib Ic Id Ie N.
  split; [| split; [| split]].
  - destruct (combiner_bounds w S R L DW DR p s1 s2 s3 s4 s5 HS)
      as (sus & E & _ & _ & Lo & B); auto using score_value_range.
    exists sus. split; [exact E | split; [exact (Lo HP) | tauto]].
  - destruct (shipped_weights_bounds a b c d e
                (ordinal64_is_score a Ia) (ordinal64_is_score b Ib)
                (ordinal64_is_score c Ic) (ordinal64_is_score d Id)
                (ordinal64_is_score e Ie))
      as (_ & H1 & Nn & Lo).
    split; [exact (Lo Ia Ib Ic Id Ie) | split; [exact H1 |]].
    exact (susClass64_ordinal _ Nn).
  - exact (susClass64_ordinal x N).
  - exact (ordinal64_not_zero _ (susClass64_ordinal x N)).
Qed.

Lemma susceptibility_one_fifth_up_to_rounding_witness :
  (exists sus : Q,
     susceptibility weights
       (weighted weights (constant 1) (constant 1) (constant 1)
          (constant 1) (constant 1)) (0, 0)%Z = Some sus
     /\ 1 # 5 <= sus <= 1)
  /\ (0.2 <=? Binary64.overlay64 Binary64.weights64 1 1 1 1 1)%float = true
  /\ Binary64.susClass64 0.19999999999999998%float <> 0%float.
Proof.
  destruct (susceptibility_one_fifth_up_to_rounding weights (constant 1)
              (constant 1) (constant 1) (constant 1) (constant 1)
              (0, 0)%Z 1 1 1 1 1 1%float 1%float 1%float 1%float 1%float
              0.19999999999999998%float)
    as ((sus & E & B) & (Lo & _) & _ & NZ).
  - repeat split.
  - unfold score_value; tauto.
  - unfold score_value; tauto.
  - unfold score_value; tauto.
  - unfold score_value; tauto.
  - unfold score_value; tauto.
  - unfold nonneg; cbn; lra.
  - cbv; reflexivity.
  - cbn; tauto.
  - cbn; tauto.
  - cbn; tauto.
  - cbn; tauto.
  - cbn; tauto.
  - reflexivity.
  - split; [exists sus; split; assumption | split; assumption].
Defined.

(* ================================================================= *)
(** ** What [run] computes with the weights of the script *)
(* ================================================================= *)





(** X8.  In binary64 the class chain shows its initial 0 exactly for a
    susceptibility that is NaN, where none of its tests holds; every
    number is given a class among 1..5.  Five weights of 1e308 make the
    susceptibility NaN, and the class 0. *)
Theorem susClass64_zero_iff_nan (s : float) :
  (is_nan s = true ->
   Binary64.fired64 s = 0%nat /\ Binary64.susClass64 s = 0%float)
  /\ (is_nan s = false ->
      In (Binary64.susClass64 s) Binary64.ordinal64
      /\ Binary64.susClass64 s <> 0%float)
  /\ is_nan (Binary64.overlay64 Binary64.huge_weights64 1 1 1 1 1) = true
  /\ Binary64.susClass64
       (Binary64.overlay64 Binary64.huge_weights64 1 1 1 1 1) = 0%float.
Proof.
  split; [exact (susClass64_nan s) |].
  split; [| split; vm_compute; reflexivity].
  intro N. split; [exact (susClass64_ordinal s N) |].
  exact (ordinal64_not_zero _ (susClass64_ordinal s N)).
Qed.

Lemma susClass64_zero_iff_nan_witness :
  is_nan (0 / 0)%float = true
  /\ Binary64.susClass64 (0 / 0)%float = 0%float
  /\ In (Binary64.susClass64 7%float) Binary64.ordinal64.
Proof.
  destruct (susClass64_zero_iff_nan (0 / 0)%float) as (Hn & _).
  destruct (susClass64_zero_iff_nan 7%float) as (_ & Hf & _).
  split; [reflexivity |].
  split; [apply Hn; reflexivity | apply Hf; reflexivity].
Defined.

(* ================================================================= *)
(** ** Exact classes against binary64 classes *)
(* ================================================================= *)

Lemma for_ordinals_spec (P : Z -> Z -> Z -> Z -> Z -> bool) :
  for_ordinals P = true ->
  forall a b c d e : Z,
    (1 <= a <= 5)%Z -> (1 <= b <= 5)%Z -> (1 <= c <= 5)%Z ->
    (1 <= d <= 5)%Z -> (1 <= e <= 5)%Z -> P a b c d e = true.
Proof.
  unfold for_ordinals. intros H a b c d e Ba Bb Bc Bd Be.
  assert (I : forall z : Z, (1 <= z <= 5)%Z -> In z [1; 2; 3; 4; 5]%Z)
    by (intros z B; cbn; lia).
  rewrite forallb_forall in H. specialize (H a (I a Ba)).
  rewrite forallb_forall in H. specialize (H b (I b Bb)).
  rewrite forallb_forall in H. specialize (H c (I c Bc)).
  rewrite forallb_forall in H. specialize (H d (I d Bd)).
  rewrite forallb_forall in H. exact (H e (I e Be)).
Qed.

Lemma is_rounded_up_spec (a b c d e : Z) :
  is_rounded_up a b c d e = true <-> In (a, b, c, d, e) rounded_up.
Proof.
  unfold is_rounded_up. rewrite existsb_exists. split.
  - intros ([[[[a' b'] c'] d'] e'] & I & E). cbn in E.
    repeat (apply andb_prop in E; destruct E as [E ?]).
    repeat match goal with
           | H : (_ =? _)%Z = true |- _ => apply Z.eqb_eq in H
           end.
    subst. exact I.
  - intro I. exists (a, b, c, d, e). split; [exact I |].
    cbn. rewrite !Z.eqb_refl. reflexivity.
Qed.

(** X10.  With the weights of the script, over the 3125 combinations of
    five scores 1..5, the class the binary64 arithmetic gives is the class
    of the exact susceptibility except at 21 combinations; at each of
    these the exact susceptibility sits on a class breakpoint
    and rounding puts the pixel one class higher.  The scores 3, 3, 3, 2,
    4, of exact susceptibility 0.6 and exact class 3, are shown in class
    4. *)
Theorem binary64_class_against_exact (a b c d e : Z) :
  (1 <= a <= 5)%Z -> (1 <= b <= 5)%Z -> (1 <= c <= 5)%Z ->
  (1 <= d <= 5)%Z -> (1 <= e <= 5)%Z ->
  (In (a, b, c, d, e) rounded_up ->
   on_breakpoint (exact_susceptibility a b c d e) = true
   /\ binary64_class a b c d e = (exact_class a b c d e + 1)%Z)
  /\ (~ In (a, b, c, d, e) rounded_up ->
      binary64_class a b c d e = exact_class a b c d e)
  /\ length rounded_up = 21%nat
  /\ exact_class 3 3 3 2 4 = 3%Z
  /\ binary64_class 3 3 3 2 4 = 4%Z.
Proof.
  intros Ba Bb Bc Bd Be.
  assert (A : for_ordinals classes_compare = true)
    by (vm_compute; reflexivity).
  pose proof (for_ordinals_spec _ A a b c d e Ba Bb Bc Bd Be) as H.
  unfold classes_compare in H.
  split; [| split; [| repeat split; vm_compute; reflexivity]].
  - intro I. apply is_rounded_up_spec in I. rewrite I in H.
    apply andb_prop in H. destruct H as [H1 H2].
    apply Z.eqb_eq in H2. split; assumption.
  - intro N.
    destruct (is_rounded_up a b c d e) eqn:E.
    + apply is_rounded_up_spec in E. contradiction.
    + apply Z.eqb_eq in H. exact H.
Qed.

Lemma binary64_class_against_exact_witness :
  In (5, 3, 3, 3, 4)%Z rounded_up
  /\ binary64_class 5 3 3 3 4 = (exact_class 5 3 3 3 4 + 1)%Z
  /\ binary64_class 2 2 3 2 4 = exact_class 2 2 3 2 4.
Proof.
  assert (I : In (5, 3, 3, 3, 4)%Z rounded_up) by (cbn; tauto).
  split; [exact I |]. split.
  - destruct (binary64_class_against_exact 5 3 3 3 4) as (R & _);
      try lia.
    destruct (R I) as [_ E]. exact E.
  - destruct (binary64_class_against_exact 2 2 3 2 4) as (_ & N & _);
      try lia.
    apply N. cbn. intro H.
    repeat (destruct H as [H | H]; [discriminate H |]). destruct H.
Defined.
